(** * fileUpload: a streaming upload client and its receiving endpoint

    A shallow embedding of [server.mjs] and [upload.mjs].

    Conventions of the embedding.
    - A JavaScript string is the list of its UTF-16 code units
      ([jsstring]); [.length], [slice], [repeat] and [padStart] act on
      code units, as they do in the engine.
    - Integer-valued numbers (byte counts, millisecond clocks, column
      counts, string lengths) are [Z].  They stay far below 2^53, where
      binary64 arithmetic on integers is exact.
    - Fractional numbers (rates, fractions, durations) are rationals [Q].
      [Client] has the arithmetic of the program without rounding: it
      decides the branches taken, the signs and the layout of the line.
      [Binary64] has the estimator, the progress fraction and the bar with
      every operation rounded as the engine rounds it; what is said of
      their values is said there.  [Number] adds the non-finite values
      the program produces or guards against.
    - The mutable variables of [main] and of the module ([uploadedBytes],
      [lastBytes], [lastTime], [emaBytesPerSec], [lastRenderedLen]) are the
      fields of one state record, stepped by the events of the
      single-threaded event loop. *)

From Stdlib Require Import ZArith NArith QArith Qabs Qround Qpower.
From Stdlib Require Import List Bool Lia Lqa.
From Stdlib Require Import String Ascii.
Import ListNotations.

Local Open Scope Z_scope.

(** ** JavaScript strings *)

Module JS.

Definition jsstring := list N.

(** A source literal (ASCII only) as code units. *)
Definition lit (s : string) : jsstring :=
  List.map N_of_ascii (list_ascii_of_string s).

Definition len (s : jsstring) : Z := Z.of_nat (List.length s).

(** [WhiteSpace] and [LineTerminator] code points of ECMAScript, the ones
    [String.prototype.trim] strips. *)
Definition isWhiteSpace (c : N) : bool :=
  (N.leb 9 c && N.leb c 13)%N
  || N.eqb c 32 || N.eqb c 160 || N.eqb c 5760
  || (N.leb 8192 c && N.leb c 8202)%N
  || N.eqb c 8232 || N.eqb c 8233 || N.eqb c 8239 || N.eqb c 8287
  || N.eqb c 12288 || N.eqb c 65279.

Fixpoint trimStart (s : jsstring) : jsstring :=
  match s with
  | [] => []
  | c :: r => if isWhiteSpace c then trimStart r else s
  end.

Definition trimEnd (s : jsstring) : jsstring := rev (trimStart (rev s)).

Definition trim (s : jsstring) : jsstring := trimEnd (trimStart s).

(** [s.slice(b, e)]: negative indices count from the end, both are clamped
    to the string. *)
Definition slice (s : jsstring) (b e : Z) : jsstring :=
  let n := len s in
  let from := if b <? 0 then Z.max (n + b) 0 else Z.min b n in
  let to := if e <? 0 then Z.max (n + e) 0 else Z.min e n in
  firstn (Z.to_nat (to - from)) (skipn (Z.to_nat from) s).

(** [s.repeat(count)]: a negative count raises RangeError ([None]). *)
Definition repeat (s : jsstring) (count : Z) : option jsstring :=
  if count <? 0 then None
  else Some (List.concat (List.repeat s (Z.to_nat count))).

(** [s.padStart(targetLength, fill)] for a one-unit [fill]. *)
Definition padStart (s : jsstring) (targetLength : Z) (fill : N) : jsstring :=
  List.repeat fill (Z.to_nat (targetLength - len s)) ++ s.

(** Decimal digits of a non-negative integer, most significant first;
    [fuel] bounds the number of digits. *)
Fixpoint digits (fuel : nat) (n : Z) (acc : jsstring) : jsstring :=
  let acc' := Z.to_N (48 + n mod 10) :: acc in
  match fuel with
  | O => acc'
  | S f => if n <? 10 then acc' else digits f (n / 10) acc'
  end.

(** [String(n)] for an integer [0 <= n < 10^21], the range in which the
    engine prints plain decimal digits. *)
Definition String_int (n : Z) : jsstring :=
  digits (Z.to_nat (Z.log2 n)) n [].

End JS.

Import JS.

(** ** Node's [path.basename] on POSIX *)

Module NodePath.

Definition CHAR_FORWARD_SLASH : N := 47.

(** The scanning loop of [posix.basename]: [i] counts the code units not
    yet examined, so the unit looked at is [path[i-1]]; the result is the
    pair [(start, end)] at loop exit. *)
Fixpoint basename_scan (path : jsstring) (i : nat)
    (start end_ : Z) (matchedSlash : bool) : Z * Z :=
  match i with
  | O => (start, end_)
  | S j =>
      if N.eqb (nth j path 0%N) CHAR_FORWARD_SLASH then
        if negb matchedSlash then (Z.of_nat j + 1, end_)
        else basename_scan path j start end_ matchedSlash
      else if end_ =? -1 then basename_scan path j start (Z.of_nat j + 1) false
      else basename_scan path j start end_ matchedSlash
  end.

Definition basename (path : jsstring) : jsstring :=
  let '(start, end_) := basename_scan path (List.length path) 0 (-1) true in
  if end_ =? -1 then [] else slice path start end_.

End NodePath.

(** ** The receive endpoint ([server.mjs]) *)

Module Server.

(** What [req.query.fileName] can be after Express has parsed the query. *)
Inductive QueryValue :=
| QUndefined
| QString (s : jsstring)
| QArray (items : list jsstring)
| QObject (fields : list (jsstring * jsstring)).

(** JavaScript truthiness of a query value ([!rawName] is its negation). *)
Definition truthy (v : QueryValue) : bool :=
  match v with
  | QUndefined => false
  | QString s => negb (len s =? 0)
  | QArray _ | QObject _ => true
  end.

Definition isString (v : QueryValue) : bool :=
  match v with QString _ => true | _ => false end.

Definition nonEmpty (s : jsstring) : bool := negb (len s =? 0).

(** Filesystem calls the handler makes, in order. *)
Inductive FsCall :=
| MkdirRecursive (dir : jsstring)
| CreateWriteStream (dir fileName : jsstring).

(** How the synchronous part of the handler ends: a response was sent, or
    the request body is being piped to the opened write stream. *)
Inductive Outcome :=
| Respond (status : Z) (body : jsstring)
| Piping (fileName : jsstring).

Definition safeBasename (name : jsstring) : jsstring :=
  NodePath.basename name.

Section Handler.

(** [path.resolve(process.cwd(), "output")]. *)
Variable outputDir : jsstring.

Definition ensureOutputDir (dirExists : bool) : list FsCall :=
  if negb dirExists then [MkdirRecursive outputDir] else [].

Definition quote : jsstring := [34%N].

Definition msgMissing : jsstring :=
  lit "Missing required query param " ++ quote ++ lit "fileName" ++ quote.

Definition msgInvalid : jsstring :=
  lit "Invalid " ++ quote ++ lit "fileName" ++ quote.

(** The receiver of [rawName.trim()]; the call is only reached, by
    short-circuit, when [rawName] is a string. *)
Definition asString (v : QueryValue) : jsstring :=
  match v with QString s => s | _ => [] end.

(** [app.post("/upload", ...)] up to the point where the body is piped;
    [CreateWriteStream dir f] stands for
    [fs.createWriteStream(path.join(dir, f), {flags: "w"})]. *)
Definition upload (rawName : QueryValue) (dirExists : bool)
  : Outcome * list FsCall :=
  if negb (truthy rawName) || negb (isString rawName)
     || negb (nonEmpty (trim (asString rawName)))
  then (Respond 400 msgMissing, [])
  else
    let fileName := safeBasename (trim (asString rawName)) in
    if negb (nonEmpty fileName)
    then (Respond 400 msgInvalid, [])
    else (Piping fileName,
          ensureOutputDir dirExists ++ [CreateWriteStream outputDir fileName]).

End Handler.

End Server.

(** ** The upload client ([upload.mjs]) *)

Module Client.

Local Open Scope Q_scope.

Definition BAR_WIDTH : Z := 30.
Definition TICK_MS : Z := 100.
Definition SPEED_ALPHA : Q := 2 # 10.
Definition DISABLE_AUTOWRAP : bool := true.

(** A JavaScript number that may be non-finite. *)
Inductive Number :=
| Fin (q : Q)
| PosInfinity
| NegInfinity
| NaN.

Definition Qltb (a b : Q) : bool := negb (Qle_bool b a).

Definition isFinite (x : Number) : bool :=
  match x with Fin _ => true | _ => false end.

(** [x < 0] on a number; comparisons with [NaN] are false. *)
Definition ltZero (x : Number) : bool :=
  match x with
  | Fin q => Qltb q 0
  | NegInfinity => true
  | PosInfinity | NaN => false
  end.

Definition finitePart (x : Number) : Q :=
  match x with Fin q => q | _ => 0 end.

Definition Qmax (a b : Q) : Q := if Qle_bool a b then b else a.
Definition Qmin (a b : Q) : Q := if Qle_bool a b then a else b.

(** [Math.round]: the nearest integer, ties toward plus infinity. *)
Definition Math_round (x : Q) : Z := Qfloor (x + (1 # 2)).

Definition colon : jsstring := lit ":".
Definition zeroChar : N := 48%N.

Definition formatHMS (totalSeconds : Number) : jsstring :=
  let totalSeconds :=
    if negb (isFinite totalSeconds) || ltZero totalSeconds then 0
    else finitePart totalSeconds in
  let s := Qfloor totalSeconds in
  let hours := (s / 3600)%Z in
  let minutes := (Z.rem s 3600 / 60)%Z in
  let seconds := Z.rem s 60 in
  let hh := padStart (String_int hours) 2 zeroChar in
  let mm := padStart (String_int minutes) 2 zeroChar in
  let ss := padStart (String_int seconds) 2 zeroChar in
  hh ++ colon ++ mm ++ colon ++ ss.

Definition filledChar : jsstring := [9608%N].
Definition emptyChar : jsstring := [9617%N].

(** [None] is the RangeError of [repeat] on a negative count. *)
Definition makeBar (progress01 : Q) (width : Z) : option jsstring :=
  let clamped := Qmax 0 (Qmin 1 progress01) in
  let filled := Math_round (clamped * inject_Z width) in
  let empty := (width - filled)%Z in
  match JS.repeat filledChar filled, JS.repeat emptyChar empty with
  | Some f, Some e => Some (lit "[" ++ f ++ e ++ lit "]")
  | _, _ => None
  end.

(** [x.toFixed(f)] for [|x| < 10^21]: the integer nearest to [x * 10^f]
    (the larger one on a tie), printed with [f] decimals. *)
Definition toFixed (x : Q) (f : nat) : jsstring :=
  let n := Qfloor (Qabs x * inject_Z (10 ^ Z.of_nat f) + (1 # 2)) in
  let m := padStart (String_int n) (Z.of_nat f + 1) zeroChar in
  let k := (len m - Z.of_nat f)%Z in
  (if Qltb x 0 then lit "-" else [])
  ++ slice m 0 k
  ++ (if Nat.eqb f 0 then [] else lit "." ++ slice m k (len m)).

(** [process.stdout] as the ticker sees it. *)
Record Terminal := mkTerminal {
  isTTY : bool;
  columns : option Z
}.

(** [process.stdout.columns || 0]. *)
Definition columnsOrZero (t : Terminal) : Z :=
  match columns t with Some c => c | None => 0%Z end.

Inductive Output :=
| StdoutWrite (text : jsstring)
| ConsoleLog (line : jsstring).

Definition ESC : N := 27%N.
Definition CR : N := 13%N.
Definition clearLine : jsstring := [CR; ESC] ++ lit "[2K".

Definition enableNoWrap (t : Terminal) : list Output :=
  if negb (isTTY t) then []
  else if negb DISABLE_AUTOWRAP then []
  else [StdoutWrite ([ESC] ++ lit "[?7l")].


(** The line after truncation to the terminal width. *)
Definition truncated (cols : Z) (line : jsstring) : jsstring :=
  if (0 <? cols)%Z && (cols - 1 <? len line)%Z
  then slice line 0 (cols - 1) else line.

(** [writeStatusLine]: the output produced and the new value of the
    module variable [lastRenderedLen]. *)
Definition writeStatusLine (t : Terminal) (lastRenderedLen : Z)
    (line : jsstring) : option (Output * Z) :=
  if negb (isTTY t) then Some (ConsoleLog line, lastRenderedLen)
  else
    let cols := columnsOrZero t in
    let out := truncated cols line in
    let padLen := Z.max 0 (lastRenderedLen - len out) in
    match JS.repeat (lit " ") padLen with
    | Some pad => Some (StdoutWrite (clearLine ++ (out ++ pad)), len out)
    | None => None
    end.

Definition Buffer := list Byte.byte.

Definition byteLength (chunk : Buffer) : Z := Z.of_nat (List.length chunk).

(** The variables of [main] that the stream and the timer share, and
    what has left the process so far. *)
Record State := mkState {
  uploadedBytes : Z;
  forwarded : list Buffer;
  lastBytes : Z;
  lastTime : Z;
  emaBytesPerSec : Q;
  lastRenderedLen : Z;
  outputs : list Output
}.

(** [counter]'s [transform(chunk, _enc, cb)]: count, then [cb(null, chunk)]. *)
Definition transform (chunk : Buffer) (st : State) : State :=
  mkState (uploadedBytes st + byteLength chunk) (forwarded st ++ [chunk])
          (lastBytes st) (lastTime st) (emaBytesPerSec st)
          (lastRenderedLen st) (outputs st).

(** Seconds between the previous sample and [now]. *)
Definition dtSec (now : Z) (st : State) : Q :=
  inject_Z (now - lastTime st) / 1000.

Definition instRate (now : Z) (st : State) : Q :=
  inject_Z (uploadedBytes st - lastBytes st) / dtSec now st.

(** The sampling part of the ticker, lines [if (dt > 0) { ... }]. *)
Definition sample (now : Z) (st : State) : State :=
  let dt := dtSec now st in
  if Qltb 0 dt then
    let dBytes := (uploadedBytes st - lastBytes st)%Z in
    let inst := inject_Z dBytes / dt in
    let ema :=
      if Qeq_bool (emaBytesPerSec st) 0 then inst
      else SPEED_ALPHA * inst + (1 - SPEED_ALPHA) * emaBytesPerSec st in
    mkState (uploadedBytes st) (forwarded st) (uploadedBytes st) now ema
            (lastRenderedLen st) (outputs st)
  else st.

Definition mebi : Q := inject_Z (1024 * 1024).

Section Main.

(** [stat.size]. *)
Variable totalBytes : Z.

Definition progress01 (uploaded : Z) : Q :=
  if (0 <? totalBytes)%Z then inject_Z uploaded / inject_Z totalBytes else 1.

Definition remainingBytes (uploaded : Z) : Z :=
  Z.max 0 (totalBytes - uploaded).

Definition etaSec (uploaded : Z) (ema : Q) : Number :=
  if Qltb 1 ema then Fin (inject_Z (remainingBytes uploaded) / ema)
  else PosInfinity.

Definition suffix (uploaded : Z) (ema : Q) : jsstring :=
  let percent := toFixed (Qmin 100 (Qmax 0 (progress01 uploaded * 100))) 1 in
  let mibDone := toFixed (inject_Z uploaded / mebi) 2 in
  let mibTotal := toFixed (inject_Z totalBytes / mebi) 2 in
  let mibPerSec := ema / mebi in
  let mbps := ema * 8 / 1000000 in
  lit "[" ++ percent ++ lit "%] "
  ++ lit "[" ++ mibDone ++ lit " MiB/" ++ mibTotal ++ lit " MiB] "
  ++ lit "[Upload: " ++ toFixed mbps 2 ++ lit " Mb/s = "
  ++ toFixed mibPerSec 2 ++ lit " MiB/s] "
  ++ lit "[Estimated completion " ++ formatHMS (etaSec uploaded ema) ++ lit "]".

(** The bar width chosen for a suffix of the given length. *)
Definition barWidth (t : Terminal) (suffixLength : Z) : Z :=
  let cols := if isTTY t then columnsOrZero t else 0%Z in
  if (0 <? cols)%Z then
    let maxBarWidth := (cols - suffixLength - 3)%Z in
    Z.max 5 (Z.min BAR_WIDTH maxBarWidth)
  else BAR_WIDTH.

(** The drawing part of the ticker for a given suffix. *)
Definition draw (t : Terminal) (sfx : jsstring) (st : State) : option State :=
  match makeBar (progress01 (uploadedBytes st)) (barWidth t (len sfx)) with
  | None => None
  | Some bar =>
      match writeStatusLine t (lastRenderedLen st) (bar ++ lit " " ++ sfx) with
      | None => None
      | Some (o, l) =>
          Some (mkState (uploadedBytes st) (forwarded st) (lastBytes st)
                        (lastTime st) (emaBytesPerSec st) l (outputs st ++ [o]))
      end
  end.

(** One run of the [setInterval] callback at clock reading [now]. *)
Definition tick (now : Z) (t : Terminal) (st : State) : option State :=
  let st1 := sample now st in
  draw t (suffix (uploadedBytes st1) (emaBytesPerSec st1)) st1.

(** What the event loop delivers while the request is in flight. *)
Inductive Event :=
| Data (chunk : Buffer)
| Tick (now : Z) (t : Terminal).

Definition step (e : Event) (st : State) : option State :=
  match e with
  | Data chunk => Some (transform chunk st)
  | Tick now t => tick now t st
  end.

Fixpoint run (evs : list Event) (st : State) : option State :=
  match evs with
  | [] => Some st
  | e :: rest =>
      match step e st with
      | Some st' => run rest st'
      | None => None
      end
  end.

(** The variables as [main] initialises them; [t0] is the [Date.now()]
    taken for [lastTime]. *)
Definition init (t0 : Z) (t : Terminal) : State :=
  mkState 0 [] 0 t0 0 0 (enableNoWrap t).


End Main.

End Client.

(** ** Vocabulary of the properties *)

Module Notions.
Import NodePath Client.

Local Open Scope Z_scope.

(** What the scan has established when it leaves the loop: nothing was
    found ([e = -1]), or [start, e) is a non-empty range of the path
    without a slash. *)
Definition segment (path : jsstring) (s e : Z) : Prop :=
  e = -1 \/
  (0 <= s < e /\ e <= len path /\
   forall k : nat, s <= Z.of_nat k < e -> nth k path 0%N <> CHAR_FORWARD_SLASH).

Local Open Scope Q_scope.

(** The clamp in the words of the specification. *)
Definition clamp01 (p : Q) : Q :=
  if Qltb p 0 then 0 else if Qltb 1 p then 1 else p.


Local Close Scope Q_scope.

Definition filledUnit : N := 9608%N.
Definition emptyUnit : N := 9617%N.

(** The bar of a given number of filled cells out of [width]. *)
Definition barOf (filled width : Z) : jsstring :=
  lit "[" ++ List.repeat filledUnit (Z.to_nat filled)
  ++ List.repeat emptyUnit (Z.to_nat (width - filled)) ++ lit "]".

Definition isDigit (c : N) : Prop := (48 <= c <= 57)%N.

(** Reading a digit string back, most significant digit first. *)
Definition decimalValue (s : jsstring) : Z :=
  fold_left (fun acc c => 10 * acc + (Z.of_N c - 48)) s 0.

Definition readFrom (a : Z) (s : jsstring) : Z :=
  fold_left (fun acc c => 10 * acc + (Z.of_N c - 48)) s a.

Definition digitUnit (d : Z) : N := Z.to_N (48 + d).

Definition blanks (n : Z) : jsstring := List.repeat 32%N (Z.to_nat n).

(** The line the ticker composes for a suffix. *)
Definition statusLine (totalBytes : Z) (t : Terminal) (sfx : jsstring)
    (st : State) : jsstring :=
  let w := barWidth t (len sfx) in
  let clamped := Qmax 0 (Qmin 1 (progress01 totalBytes (uploadedBytes st))) in
  barOf (Math_round (clamped * inject_Z w)%Q) w ++ lit " " ++ sfx.

Definition chunksOf (evs : list Event) : list Buffer :=
  flat_map (fun e => match e with Data c => [c] | Tick _ _ => [] end) evs.

Definition totalLength (chunks : list Buffer) : Z :=
  fold_right (fun c n => byteLength c + n) 0 chunks.

(** The instantaneous rates of the valid samples of a run, oldest first. *)
Fixpoint rates (totalBytes : Z) (evs : list Event) (st : State) : list Q :=
  match evs with
  | [] => []
  | e :: rest =>
      match step totalBytes e st with
      | Some st' =>
          match e with
          | Tick now _ =>
              if Qltb 0 (dtSec now st) then [instRate now st] else []
          | Data _ => []
          end ++ rates totalBytes rest st'
      | None => []
      end
  end.

Local Open Scope Q_scope.

(** Every tick of the run is a valid sample and finds the instantaneous
    rate [R]. *)
Fixpoint steady (totalBytes : Z) (R : Q) (evs : list Event) (st : State)
  : Prop :=
  match evs with
  | [] => True
  | e :: rest =>
      match e with
      | Tick now _ => 0 < dtSec now st /\ instRate now st == R
      | Data _ => True
      end
      /\ match step totalBytes e st with
         | Some st' => steady totalBytes R rest st'
         | None => False
         end
  end.

Fixpoint tickCount (evs : list Event) : nat :=
  match evs with
  | [] => 0
  | Tick _ _ :: rest => S (tickCount rest)
  | Data _ :: rest => tickCount rest
  end.

(** What the loop maintains about the sampled counter and the estimate. *)
Definition sound (st : State) : Prop :=
  (0 <= lastBytes st <= uploadedBytes st)%Z
  /\ 0 <= emaBytesPerSec st
  /\ (0 < emaBytesPerSec st <-> (0 < lastBytes st)%Z).

Local Close Scope Q_scope.

(** A pipe, five bytes and a 40-column terminal, for concrete runs. *)
Definition pipeTerminal : Terminal := mkTerminal false None.

Definition fiveBytes : Buffer :=
  [Byte.x00; Byte.x01; Byte.x02; Byte.x03; Byte.x04].

Definition wideTerminal : Terminal := mkTerminal true (Some 40).

Definition startState : State := init 0 wideTerminal.

End Notions.

(** ** The command line and the start of [main] ([upload.mjs]) *)

Module Cli.

Local Open Scope Z_scope.

Fixpoint str_eqb (a b : jsstring) : bool :=
  match a, b with
  | [], [] => true
  | x :: a', y :: b' => N.eqb x y && str_eqb a' b'
  | _, _ => false
  end.

(** [s.startsWith(p)]. *)
Fixpoint startsWith (s p : jsstring) : bool :=
  match p, s with
  | [], _ => true
  | y :: p', x :: s' => N.eqb x y && startsWith s' p'
  | _ :: _, [] => false
  end.

Definition newline : jsstring := [10%N].
Definition dquote : jsstring := [34%N].

(** A computation that returns, or ends the process through
    [process.exit(code)] after the given [console.error] calls. *)
Inductive Run (A : Type) :=
| Returned (a : A)
| Exited (code : Z) (stderr : list jsstring).
Arguments Returned {A} a.
Arguments Exited {A} code stderr.

Definition usage : jsstring :=
  lit "Usage:" ++ newline
  ++ lit "  node upload.mjs <file_name>" ++ newline
  ++ lit "  node upload.mjs <file_name> --url <url>" ++ newline.

(** [printUsageAndExit(code)], after the errors already printed. *)
Definition printUsageAndExit {A : Type} (printed : list jsstring) (code : Z)
  : Run A :=
  Exited code (printed ++ [usage]).

(** [!file] and [!next] on a value that is a string, [null] or
    [undefined]. *)
Definition falsy (v : option jsstring) : bool :=
  match v with
  | None => true
  | Some s => len s =? 0
  end.

(** The [for] loop of [parseArgs] from the argument at hand on; taking
    [args[i + 1]] and skipping it by [i++] is the step to [rest']. *)
Fixpoint parseLoop (args : list jsstring) (file url : option jsstring)
  : Run (option jsstring * option jsstring) :=
  match args with
  | [] => Returned (file, url)
  | a :: rest =>
      if str_eqb a (lit "--url") then
        match rest with
        | [] =>
            printUsageAndExit [lit "Error: --url requires a value"] 1
        | next :: rest' =>
            if falsy (Some next)
            then printUsageAndExit [lit "Error: --url requires a value"] 1
            else parseLoop rest' file (Some next)
        end
      else if startsWith a (lit "--")
      then printUsageAndExit [lit "Error: Unknown flag " ++ a] 1
      else if falsy file then parseLoop rest (Some a) url
      else printUsageAndExit [lit "Error: Unexpected extra arg: " ++ a] 1
  end.

Definition parseArgs (argv : list jsstring)
  : Run (option jsstring * option jsstring) :=
  parseLoop (skipn 2 argv) None None.

(** What [JSON.parse] returns. *)
#[warnings="-register-all"]
Inductive JSON :=
| JNull
| JBool (b : bool)
| JNumber (q : Q)
| JString (s : jsstring)
| JArray (items : list JSON)
| JObject (fields : list (jsstring * JSON)).

Definition jsonTruthy (v : JSON) : bool :=
  match v with
  | JNull => false
  | JBool b => b
  | JNumber q => negb (Qeq_bool q 0)
  | JString s => negb (len s =? 0)
  | JArray _ | JObject _ => true
  end.

Fixpoint lookup (key : jsstring) (fields : list (jsstring * JSON))
  : option JSON :=
  match fields with
  | [] => None
  | (k, v) :: rest => if str_eqb k key then Some v else lookup key rest
  end.

(** [json.destination]: [None] is [undefined]; only a parsed object can
    own the property. *)
Definition destinationOf (json : JSON) : option JSON :=
  match json with
  | JObject fields => lookup (lit "destination") fields
  | _ => None
  end.

(** Reading and parsing [config.json]: either step may throw. *)
Inductive ConfigRead :=
| ReadFailed (message : jsstring)
| ParseFailed (message : jsstring)
| Parsed (json : JSON).

Definition configError : jsstring :=
  lit "config.json must contain a non-empty string key "
  ++ dquote ++ lit "destination" ++ dquote.

Definition isJString (v : option JSON) : bool :=
  match v with Some (JString _) => true | _ => false end.

(** The receiver of [json.destination.trim()], reached only for a
    string. *)
Definition stringOf (v : option JSON) : jsstring :=
  match v with Some (JString s) => s | _ => [] end.

(** [readDestinationFromConfig]: [inl] is the message of the error
    thrown. *)
Definition readDestinationFromConfig (c : ConfigRead) : jsstring + jsstring :=
  match c with
  | ReadFailed m | ParseFailed m => inl m
  | Parsed json =>
      if negb (jsonTruthy json)
         || negb (isJString (destinationOf json))
         || negb (Server.nonEmpty (trim (stringOf (destinationOf json))))
      then inl configError
      else inr (trim (stringOf (destinationOf json)))
  end.

(** The parts of a parsed URL that [buildUploadUrl] touches; the rest is
    kept in [beforeQuery] and [fragment]. *)
Record URL := mkURL {
  beforeQuery : jsstring;
  searchParams : list (jsstring * jsstring);
  fragment : jsstring
}.

Fixpoint dropParam (name : jsstring) (ps : list (jsstring * jsstring))
  : list (jsstring * jsstring) :=
  match ps with
  | [] => []
  | (k, v) :: rest =>
      if str_eqb k name then dropParam name rest
      else (k, v) :: dropParam name rest
  end.

(** [URLSearchParams.prototype.set]: the first pair of that name takes the
    value and the others are removed; without such a pair one is
    appended. *)
Fixpoint setParam (name value : jsstring) (ps : list (jsstring * jsstring))
  : list (jsstring * jsstring) :=
  match ps with
  | [] => [(name, value)]
  | (k, v) :: rest =>
      if str_eqb k name then (name, value) :: dropParam name rest
      else (k, v) :: setParam name value rest
  end.

(** [URLSearchParams.prototype.getAll]. *)
Fixpoint getAll (name : jsstring) (ps : list (jsstring * jsstring))
  : list jsstring :=
  match ps with
  | [] => []
  | (k, v) :: rest =>
      if str_eqb k name then v :: getAll name rest else getAll name rest
  end.

Inductive StatResult :=
| StatFailed (message : jsstring)
| Stats (isFile : bool) (size : Z).

(** Filesystem reads of the client, in the order made. *)
Inductive FsRead :=
| StatPath (path : jsstring)
| ReadConfig.

(** What [main] has in hand when the transfer starts. *)
Record Plan := mkPlan {
  filePath : jsstring;
  fileName : jsstring;
  totalBytes : Z;
  uploadUrl : jsstring
}.

Section Main.

(** [path.resolve(process.cwd(), _)], [fs.promises.stat], the outcome of
    reading [config.json], [new URL(_)] ([None] when it throws) and
    [URL.prototype.toString]. *)
Variable resolve : jsstring -> jsstring.
Variable stat : jsstring -> StatResult.
Variable config : ConfigRead.
Variable parseURL : jsstring -> option URL.
Variable serialize : URL -> jsstring.

(** The URL object after [u.searchParams.set("fileName", fileName)]. *)
Definition withFileName (u : URL) (fileName : jsstring) : URL :=
  mkURL (beforeQuery u) (setParam (lit "fileName") fileName (searchParams u))
        (fragment u).

Definition buildUploadUrl (baseUrl fileName : jsstring) : jsstring + jsstring :=
  match parseURL baseUrl with
  | None => inl (lit "Invalid destination URL: " ++ baseUrl)
  | Some u => inr (serialize (withFileName u fileName))
  end.

(** [main] up to the opening of the read stream. *)
Definition prepare (argv : list jsstring) : Run Plan * list FsRead :=
  match parseArgs argv with
  | Exited code printed => (Exited code printed, [])
  | Returned (file, urlOverride) =>
      if falsy file then (printUsageAndExit [] 1, [])
      else
        let file := match file with Some f => f | None => [] end in
        let filePath := resolve file in
        let fileName := NodePath.basename filePath in
        match stat filePath with
        | StatFailed m =>
            (Exited 1 [lit "Error: cannot access file " ++ dquote ++ file
                       ++ dquote ++ lit ": " ++ m],
             [StatPath filePath])
        | Stats isFile size =>
            if negb isFile then
              (Exited 1 [lit "Error: " ++ dquote ++ file ++ dquote
                         ++ lit " is not a regular file"],
               [StatPath filePath])
            else
              let totalBytes := size in
              let chosen :=
                if negb (falsy urlOverride)
                then (inr (match urlOverride with Some u => u | None => [] end),
                      [])
                else (readDestinationFromConfig config, [ReadConfig]) in
              match fst chosen with
              | inl m =>
                  (Exited 1
                     [lit "Error: could not read destination from config.json ("
                      ++ m ++ lit ")." ++ newline
                      ++ lit "Either create config.json with {"
                      ++ dquote ++ lit "destination" ++ dquote ++ lit ":"
                      ++ dquote ++ lit "http://..." ++ dquote
                      ++ lit "} or pass --url."],
                   StatPath filePath :: snd chosen)
              | inr destination =>
                  match buildUploadUrl destination fileName with
                  | inl m =>
                      (Exited 1 [lit "Error: " ++ m],
                       StatPath filePath :: snd chosen)
                  | inr uploadUrl =>
                      (Returned (mkPlan filePath fileName totalBytes uploadUrl),
                       StatPath filePath :: snd chosen)
                  end
              end
        end
  end.

End Main.

(** [validateStatus] of the request. *)
Definition validateStatus (status : Z) : bool :=
  (200 <=? status) && (status <? 300).

End Cli.

(** ** The end of [main], the earlier client and the receiving stream *)

Module Session.
Import Client Cli.

Local Open Scope Z_scope.





Section Main.

Variable terminal : Terminal.
Variable totalBytes : Z.
Variable fileName : jsstring.

(** [startTime] and the [Date.now()] read after the request. *)
Variable startTime : Z.
Variable endTime : Z.




End Main.

End Session.

(** The client before it fitted the line to the terminal. *)
Module Legacy.
Import Client.

Local Open Scope Z_scope.

(** [readline.clearLine(process.stdout, 0)] and
    [readline.cursorTo(process.stdout, 0)] write these sequences. *)
Definition eraseLine : jsstring := [ESC] ++ lit "[2K".
Definition toColumnOne : jsstring := [ESC] ++ lit "[1G".

Section Main.

Variable totalBytes : Z.

Definition draw (sfx : jsstring) (st : State) : option State :=
  match makeBar (progress01 totalBytes (uploadedBytes st)) BAR_WIDTH with
  | None => None
  | Some bar =>
      Some (mkState (uploadedBytes st) (forwarded st) (lastBytes st)
              (lastTime st) (emaBytesPerSec st) (lastRenderedLen st)
              (outputs st ++
               [StdoutWrite eraseLine; StdoutWrite toColumnOne;
                StdoutWrite (bar ++ lit " " ++ sfx)]))
  end.

Definition tick (now : Z) (st : State) : option State :=
  let st1 := sample now st in
  draw (suffix totalBytes (uploadedBytes st1) (emaBytesPerSec st1)) st1.

End Main.

End Legacy.

(** The handler of [server.mjs] once the write stream is open. *)
Module Receive.
Import Server Client.

Local Open Scope Z_scope.

Record Summary := mkSummary {
  ok : bool;
  fileName : jsstring;
  bytesWritten : Z;
  savedTo : jsstring
}.

Inductive Response :=
| SendText (status : Z) (body : jsstring)
| SendJson (status : Z) (body : Summary).

Definition statusOf (r : Response) : Z :=
  match r with SendText s _ | SendJson s _ => s end.

(** What the request and the write stream emit. *)
Inductive StreamEvent :=
| ReqData (chunk : Buffer)
| ReqError
| OutError
| OutFinish.

Inductive Logged :=
| RequestStreamError
| FileWriteError.

Record Transfer := mkTransfer {
  wroteBytes : Z;
  piped : list Buffer;
  sent : list Response;
  outDestroyed : bool;
  reqDestroyed : bool;
  logged : list Logged
}.

(** [res.headersSent]. *)
Definition headersSent (tr : Transfer) : bool :=
  match sent tr with [] => false | _ :: _ => true end.

Definition start : Transfer := mkTransfer 0 [] [] false false [].

Section Handler.

Variable name : jsstring.

(** The listeners.  On [ReqData] both the counting listener and the one
    [req.pipe(outStream)] installs run: the chunk is counted and handed
    to the write stream. *)
Definition on (e : StreamEvent) (tr : Transfer) : Transfer :=
  match e with
  | ReqData chunk =>
      mkTransfer (wroteBytes tr + byteLength chunk) (piped tr ++ [chunk])
                 (sent tr) (outDestroyed tr) (reqDestroyed tr) (logged tr)
  | ReqError =>
      mkTransfer (wroteBytes tr) (piped tr)
                 (if negb (headersSent tr)
                  then sent tr ++ [SendText 500 (lit "Upload stream error")]
                  else sent tr)
                 true (reqDestroyed tr) (logged tr ++ [RequestStreamError])
  | OutError =>
      mkTransfer (wroteBytes tr) (piped tr)
                 (if negb (headersSent tr)
                  then sent tr ++ [SendText 500 (lit "File write error")]
                  else sent tr)
                 (outDestroyed tr) true (logged tr ++ [FileWriteError])
  | OutFinish =>
      mkTransfer (wroteBytes tr) (piped tr)
                 (sent tr ++
                  [SendJson 200
                     (mkSummary true name (wroteBytes tr)
                        (lit "output/" ++ name))])
                 (outDestroyed tr) (reqDestroyed tr) (logged tr)
  end.

Definition receive (evs : list StreamEvent) : Transfer :=
  fold_left (fun tr e => on e tr) evs start.

End Handler.

(** One request from the query to the responses sent. *)
Definition serve (outputDir : jsstring) (rawName : QueryValue)
    (dirExists : bool) (evs : list StreamEvent)
  : list Response * list FsCall :=
  match upload outputDir rawName dirExists with
  | (Respond status body, calls) => ([SendText status body], calls)
  | (Piping name, calls) => (sent (receive name evs), calls)
  end.

(** [app.get("/")]. *)
Definition root : Response :=
  SendText 200 (lit "OK. POST binary data to /upload?fileName=yourfile.bin").

End Receive.

(** ** Binary64 arithmetic and the parts of the client that round *)

(** JavaScript numbers are binary64.  [fl] rounds a rational to the
    nearest binary64 number, ties to even: a 53-bit significand, and below
    [2^-1022] the fixed spacing [2^-1074] of the subnormal numbers.  The
    largest exponent is not bounded: a result of [2^1024] or more, which
    the engine turns into [Infinity], stays finite here, so the facts
    below are about operands that keep every result under that bound.  An
    arithmetic operation of the source is the exact operation followed by
    [fl]; integers below 2^53 are their own rounding. *)
Module Binary64.
Import Client.

Local Open Scope Q_scope.

(** The exponent [e] with [2^e <= x < 2^(e+1)], for [x > 0]. *)
Definition binade (x : Q) : Z :=
  let e0 := (Z.log2 (Qnum x) - Z.log2 (Zpos (Qden x)))%Z in
  if Qle_bool (2 ^ e0) x then e0 else (e0 - 1)%Z.

(** The nearest integer, the even one on a tie. *)
Definition nearestEven (y : Q) : Z :=
  let f := Qfloor y in
  let r := y - inject_Z f in
  if Qltb r (1 # 2) then f
  else if Qltb (1 # 2) r then (f + 1)%Z
  else if Z.even f then f else (f + 1)%Z.

(** The exponent of the smallest normal number. *)
Definition emin : Z := -1022.

(** The spacing of binary64 numbers around [x > 0]. *)
Definition ulp (x : Q) : Q := 2 ^ (Z.max (binade x) emin - 52).

Definition roundPos (x : Q) : Q :=
  inject_Z (nearestEven (x / ulp x)) * ulp x.

Definition fl (x : Q) : Q :=
  if Qeq_bool x 0 then 0
  else if Qltb 0 x then roundPos x
  else - roundPos (- x).

(** The unit roundoff: half the spacing just above one. *)
Definition unitRoundoff : Q := 2 ^ (-53).

(** Half the spacing of the subnormal numbers. *)
Definition tiny : Q := 2 ^ (-1075).

Definition fadd (a b : Q) : Q := fl (a + b).
Definition fsub (a b : Q) : Q := fl (a - b).
Definition fmul (a b : Q) : Q := fl (a * b).
Definition fdiv (a b : Q) : Q := fl (a / b).

(** The literal [0.2]. *)
Definition SPEED_ALPHA : Q := fl (2 # 10).

(** [(now - lastTime) / 1000]. *)
Definition dtSec (now : Z) (st : State) : Q :=
  fdiv (inject_Z (now - lastTime st)) 1000.

(** [dBytes / dt]. *)
Definition instRate (now : Z) (st : State) : Q :=
  fdiv (inject_Z (uploadedBytes st - lastBytes st)) (dtSec now st).

(** The sampling part of the ticker, lines [if (dt > 0) { ... }]. *)
Definition sample (now : Z) (st : State) : State :=
  let dt := dtSec now st in
  if Qltb 0 dt then
    let dBytes := (uploadedBytes st - lastBytes st)%Z in
    let inst := fdiv (inject_Z dBytes) dt in
    let ema :=
      if Qeq_bool (emaBytesPerSec st) 0 then inst
      else fadd (fmul SPEED_ALPHA inst)
                (fmul (fsub 1 SPEED_ALPHA) (emaBytesPerSec st)) in
    mkState (uploadedBytes st) (forwarded st) (uploadedBytes st) now ema
            (lastRenderedLen st) (outputs st)
  else st.

(** [totalBytes > 0 ? uploadedBytes / totalBytes : 1]. *)
Definition progress01 (totalBytes uploaded : Z) : Q :=
  if (0 <? totalBytes)%Z then fdiv (inject_Z uploaded) (inject_Z totalBytes)
  else 1.

(** [makeBar]: the clamp is exact, the product rounds, [Math.round] is
    exact on the rounded product. *)
Definition makeBar (progress01 : Q) (width : Z) : option jsstring :=
  let clamped := Qmax 0 (Qmin 1 progress01) in
  let filled := Math_round (fmul clamped (inject_Z width)) in
  let empty := (width - filled)%Z in
  match JS.repeat filledChar filled, JS.repeat emptyChar empty with
  | Some f, Some e => Some (lit "[" ++ f ++ e ++ lit "]")
  | _, _ => None
  end.



End Binary64.

(** ** Vocabulary of the further properties *)

Module MoreNotions.
Import Client Cli Session Receive Notions.

Local Open Scope Z_scope.

(** What a returning [parseLoop] can have put into [file] and [url]. *)
Definition fromArgs (args : list jsstring)
    (file url file' url' : option jsstring) : Prop :=
  (file' = file
   \/ exists f, file' = Some f /\ In f args
                /\ startsWith f (lit "--") = false)
  /\ (url' = url
      \/ exists u pre post,
           url' = Some u /\ u <> []
           /\ args = pre ++ lit "--url" :: u :: post).

Definition node : jsstring := lit "node".
Definition script : jsstring := lit "upload.mjs".

(** A parsed URL that already carries two [fileName] parameters. *)
Definition sampleURL : URL :=
  mkURL (lit "http://h/upload")
        [(lit "fileName", lit "old"); (lit "v", lit "1");
         (lit "fileName", lit "older")] [].

(** The chunks among the events of a request. *)
Definition dataOf (evs : list StreamEvent) : list Buffer :=
  flat_map (fun e => match e with ReqData c => [c] | _ => [] end) evs.

(** The reply to the first stream error among the events, if there is
    one. *)
Fixpoint firstErrorReply (evs : list StreamEvent) : list Response :=
  match evs with
  | [] => []
  | ReqError :: _ => [SendText 500 (lit "Upload stream error")]
  | OutError :: _ => [SendText 500 (lit "File write error")]
  | _ :: rest => firstErrorReply rest
  end.

Definition notFinish (e : StreamEvent) : Prop :=
  match e with OutFinish => False | _ => True end.

(** The filled cells of a bar. *)
Definition filledCells (bar : jsstring) : nat :=
  count_occ N.eq_dec bar filledUnit.

(** What a tick can write: a console line, or an in-place write that
    begins by clearing the line. *)
Definition statusOutput (o : Output) : Prop :=
  (exists line, o = ConsoleLog line)
  \/ (exists text, o = StdoutWrite (clearLine ++ text)).

(** The suffix a tick at [now] composes. *)
Definition suffixAt (totalBytes now : Z) (st : State) : jsstring :=
  suffix totalBytes (uploadedBytes (sample now st))
    (emaBytesPerSec (sample now st)).

Definition COLON : N := 58%N.

(** Cutting a string at its colons; [cur] is the piece being read. *)
Fixpoint splitColon (s cur : jsstring) : list jsstring :=
  match s with
  | [] => [cur]
  | c :: r =>
      if N.eqb c COLON then cur :: splitColon r []
      else splitColon r (cur ++ [c])
  end.

(** The whole seconds a rendered duration stands for. *)
Definition readHMS (s : jsstring) : option Z :=
  match splitColon s [] with
  | [h; m; x] =>
      Some (decimalValue h * 3600 + decimalValue m * 60 + decimalValue x)
  | _ => None
  end.








End MoreNotions.

(** * Properties *)

(** ** Code-unit lists *)

Section ListFacts.

Lemma In_firstn_skipn_nth (l : jsstring) (a n : nat) (x : N) :
  In x (firstn n (skipn a l)) ->
  exists k, (a <= k < a + n)%nat /\ (k < List.length l)%nat /\ nth k l 0%N = x.
Proof.
  revert a n. induction l as [|c l IH]; intros a n Hin.
  - destruct a, n; simpl in Hin; contradiction.
  - destruct a as [|a].
    + destruct n as [|n]; simpl in Hin; [contradiction|].
      destruct Hin as [<-|Hin].
      * exists 0%nat. simpl. repeat split; lia.
      * destruct (IH 0%nat n) as (k & Hk & Hl & Hn); [exact Hin|].
        exists (S k). simpl. repeat split; lia.
    + simpl in Hin. destruct (IH a n Hin) as (k & Hk & Hl & Hn).
      exists (S k). simpl. repeat split; lia.
Qed.

Lemma len_nonneg (s : jsstring) : 0 <= len s.
Proof. unfold len. lia. Qed.

Lemma len_app (s t : jsstring) : len (s ++ t) = len s + len t.
Proof. unfold len. rewrite length_app. lia. Qed.

Lemma len_nil_iff (s : jsstring) : len s = 0 <-> s = [].
Proof.
  unfold len. split.
  - destruct s; simpl; [reflexivity|lia].
  - intros ->. reflexivity.
Qed.

End ListFacts.

(** ** [path.basename] *)

Module BasenameFacts.
Import NodePath Notions.

Lemma basename_scan_segment (path : jsstring) :
  forall (i : nat) (start end_ : Z) (matchedSlash : bool) (s e : Z),
    (i <= List.length path)%nat ->
    start = 0 ->
    (matchedSlash = true -> end_ = -1) ->
    (matchedSlash = false ->
       Z.of_nat i < end_ /\ end_ <= len path /\
       forall k : nat, Z.of_nat i <= Z.of_nat k < end_ ->
                       nth k path 0%N <> CHAR_FORWARD_SLASH) ->
    basename_scan path i start end_ matchedSlash = (s, e) ->
    segment path s e.
Proof.
  induction i as [|j IH];
    intros start end_ ms s e Hi Hstart Htrue Hfalse Hscan.
  - simpl in Hscan. injection Hscan as <- <-.
    destruct ms.
    + left. auto.
    + destruct (Hfalse eq_refl) as (Hlt & Hle & Hall).
      right. repeat split; try lia. intros k Hk. apply Hall. lia.
  - simpl in Hscan.
    destruct (N.eqb_spec (nth j path 0%N) CHAR_FORWARD_SLASH) as [Hslash|Hother].
    + destruct ms; simpl in Hscan.
      * apply (IH start end_ true s e); auto; try lia; try (intros Hms; discriminate Hms).
      * injection Hscan as <- <-.
        destruct (Hfalse eq_refl) as (Hlt & Hle & Hall).
        right. repeat split; try lia. intros k Hk. apply Hall. lia.
    + destruct (Z.eqb_spec end_ (-1)) as [Hend|Hend].
      * apply (IH start (Z.of_nat j + 1) false s e); auto; try lia;
          try (intros Hms; discriminate Hms).
        intros _. unfold len. repeat split; try lia.
           intros k Hk. replace k with j by lia. exact Hother.
      * destruct ms.
        -- exfalso. apply Hend. auto.
        -- apply (IH start end_ false s e); auto; try lia.
           intros _. destruct (Hfalse eq_refl) as (Hlt & Hle & Hall).
           repeat split; try lia.
           intros k Hk.
           destruct (Nat.eq_dec k j) as [->|Hkj]; [exact Hother|].
           apply Hall. lia.
Qed.

Lemma basename_cases (path : jsstring) :
  basename path = [] \/
  exists s e, segment path s e /\ e <> -1 /\ basename path = slice path s e.
Proof.
  unfold basename.
  destruct (basename_scan path (List.length path) 0 (-1) true) as [s e] eqn:Hscan.
  destruct (Z.eqb_spec e (-1)) as [He|He]; [left; reflexivity|].
  right. exists s, e. repeat split; auto.
  apply (basename_scan_segment path (List.length path) 0 (-1) true s e);
    auto; try lia;
    try (intros Hms; discriminate Hms).
Qed.

(** The result of [basename] holds no path separator. *)
Lemma basename_no_slash (path : jsstring) :
  ~ In CHAR_FORWARD_SLASH (basename path).
Proof.
  destruct (basename_cases path) as [->|(s & e & Hseg & He & ->)]; [intros []|].
  destruct Hseg as [Hseg|(Hs & Hle & Hall)]; [contradiction|].
  unfold slice.
  destruct (Z.ltb_spec s 0) as [Hneg|_]; [lia|].
  destruct (Z.ltb_spec e 0) as [Hneg|_]; [lia|].
  intros Hin. apply In_firstn_skipn_nth in Hin.
  destruct Hin as (k & Hk & Hlen & Hnth).
  apply (Hall k); [|exact Hnth]. lia.
Qed.

End BasenameFacts.

(** ** The receive endpoint *)

Module ServerFacts.
Import NodePath Server Notions BasenameFacts.

Lemma nonEmpty_false_iff (s : jsstring) : nonEmpty s = false <-> s = [].
Proof.
  unfold nonEmpty. rewrite negb_false_iff, Z.eqb_eq. apply len_nil_iff.
Qed.

Lemma nonEmpty_true_iff (s : jsstring) : nonEmpty s = true <-> s <> [].
Proof.
  rewrite <- nonEmpty_false_iff. destruct (nonEmpty s); split; congruence.
Qed.

Lemma trim_nil_of_nil (s : jsstring) : s = [] -> trim s = [].
Proof. intros ->. reflexivity. Qed.

(** A string that survives trimming was truthy to begin with. *)
Lemma truthy_of_trim (s : jsstring) : trim s <> [] -> truthy (QString s) = true.
Proof.
  intros Ht. simpl. apply nonEmpty_true_iff. intros Hs.
  apply Ht, trim_nil_of_nil, Hs.
Qed.

Section Handler.

Variable outputDir : jsstring.

(** The handler on a string whose trimmed value is not empty. *)
Lemma upload_string (s : jsstring) (dirExists : bool) :
  trim s <> [] ->
  upload outputDir (QString s) dirExists =
    if nonEmpty (safeBasename (trim s))
    then (Piping (safeBasename (trim s)),
          ensureOutputDir outputDir dirExists
          ++ [CreateWriteStream outputDir (safeBasename (trim s))])
    else (Respond 400 msgInvalid, []).
Proof.
  intros Ht. unfold upload.
  rewrite (truthy_of_trim s Ht). simpl.
  apply nonEmpty_true_iff in Ht. rewrite Ht. simpl.
  destruct (nonEmpty (safeBasename (trim s))); reflexivity.
Qed.

End Handler.

(** C1 (as amended).  For a [fileName] that is a string with something
    left after trimming, the handler either answers 400 (nothing but
    slashes was left) or writes under [basename(trim(fileName))], and that
    name is not empty and holds no path separator; the requests
    ["../../etc/passwd"] and ["a/b/c.bin"] are written under ["passwd"]
    and ["c.bin"]. *)
Theorem sanitized_name_is_basename_of_trimmed :
  (forall (outputDir s : jsstring) (dirExists : bool),
      trim s <> [] ->
      let fileName := basename (trim s) in
      ~ In CHAR_FORWARD_SLASH fileName /\
      (fileName <> [] ->
         upload outputDir (QString s) dirExists =
           (Piping fileName,
            ensureOutputDir outputDir dirExists
            ++ [CreateWriteStream outputDir fileName])) /\
      (fileName = [] ->
         upload outputDir (QString s) dirExists = (Respond 400 msgInvalid, [])))
  /\ (forall outputDir dirExists,
         fst (upload outputDir (QString (lit "../../etc/passwd")) dirExists)
         = Piping (lit "passwd"))
  /\ (forall outputDir dirExists,
         fst (upload outputDir (QString (lit "a/b/c.bin")) dirExists)
         = Piping (lit "c.bin")).
Proof.
  split; [|split].
  - intros outputDir s dirExists Ht fileName.
    split; [apply basename_no_slash|].
    split; intros Hf; rewrite (upload_string outputDir s dirExists Ht);
      unfold safeBasename; fold fileName.
    + apply nonEmpty_true_iff in Hf. rewrite Hf. reflexivity.
    + apply nonEmpty_false_iff in Hf. rewrite Hf. reflexivity.
  - intros outputDir dirExists. destruct dirExists; reflexivity.
  - intros outputDir dirExists. destruct dirExists; reflexivity.
Qed.

Lemma sanitized_name_is_basename_of_trimmed_witness :
  upload (lit "/srv/output") (QString (lit " dir/report.txt ")) false =
    (Piping (lit "report.txt"),
     [MkdirRecursive (lit "/srv/output");
      CreateWriteStream (lit "/srv/output") (lit "report.txt")]).
Proof.
  refine (proj1 (proj2 (proj1 sanitized_name_is_basename_of_trimmed
                          (lit "/srv/output") (lit " dir/report.txt ") false _)) _);
    vm_compute; discriminate.
Defined.

(** C1 as stated fails twice.  The name written under is the basename of
    the trimmed value, not of the requested value: [" a"] is written under
    ["a"], while [basename(" a")] is [" a"].  And the basename of [".."] is
    [".."], a parent-directory segment. *)
Lemma sanitized_name_counterexample :
  (fst (upload (lit "/srv/output") (QString (lit " a")) true) = Piping (lit "a")
   /\ basename (lit " a") = lit " a"
   /\ lit "a" <> lit " a")
  /\ fst (upload (lit "/srv/output") (QString (lit "..")) true)
     = Piping (lit "..").
Proof.
  repeat split; try reflexivity. vm_compute. discriminate.
Qed.

(** C2.  An absent [fileName], one that is not a string, and one that is
    empty or blank after trimming are answered with status 400 and the
    missing-parameter message; a string of which sanitization leaves
    nothing is answered with status 400 and the invalid-name message.  In
    each case the handler makes no filesystem call: neither the directory
    nor a file is touched. *)
Theorem invalid_fileName_rejected_without_writes
    (outputDir : jsstring) (rawName : QueryValue) (dirExists : bool) :
  (rawName = QUndefined \/ isString rawName = false
   \/ trim (asString rawName) = [] ->
     upload outputDir rawName dirExists = (Respond 400 msgMissing, [])
     /\ msgMissing <> [])
  /\ (isString rawName = true ->
      trim (asString rawName) <> [] ->
      safeBasename (trim (asString rawName)) = [] ->
        upload outputDir rawName dirExists = (Respond 400 msgInvalid, [])
        /\ msgInvalid <> []).
Proof.
  split.
  - intros H. split; [|discriminate].
    unfold upload.
    destruct rawName as [|s|items|fields]; try reflexivity.
    destruct H as [H|[H|H]]; try discriminate.
    simpl in H. apply nonEmpty_false_iff in H. simpl asString. rewrite H.
    destruct (truthy (QString s)); reflexivity.
  - intros Hstr Ht Hb. split; [|discriminate].
    destruct rawName as [|s|items|fields]; try discriminate.
    simpl in Ht, Hb. rewrite (upload_string outputDir s dirExists Ht).
    apply nonEmpty_false_iff in Hb. rewrite Hb. reflexivity.
Qed.

Lemma invalid_fileName_rejected_without_writes_witness :
  (upload (lit "/srv/output") QUndefined false = (Respond 400 msgMissing, [])
   /\ upload (lit "/srv/output") (QArray [lit "a"; lit "b"]) false
      = (Respond 400 msgMissing, [])
   /\ upload (lit "/srv/output") (QString (lit "  ")) false
      = (Respond 400 msgMissing, []))
  /\ upload (lit "/srv/output") (QString (lit " // ")) false
     = (Respond 400 msgInvalid, []).
Proof.
  split; [split; [|split]|].
  - apply (proj1 (invalid_fileName_rejected_without_writes
                    (lit "/srv/output") QUndefined false)).
    left. reflexivity.
  - apply (proj1 (invalid_fileName_rejected_without_writes
                    (lit "/srv/output") (QArray [lit "a"; lit "b"]) false)).
    right. left. reflexivity.
  - apply (proj1 (invalid_fileName_rejected_without_writes
                    (lit "/srv/output") (QString (lit "  ")) false)).
    right. right. reflexivity.
  - apply (proj2 (invalid_fileName_rejected_without_writes
                    (lit "/srv/output") (QString (lit " // ")) false)).
    + reflexivity.
    + vm_compute. discriminate.
    + reflexivity.
Defined.

(** The other direction: every other request reaches the write stream. *)
Lemma valid_fileName_is_piped
    (outputDir : jsstring) (rawName : QueryValue) (dirExists : bool) :
  isString rawName = true ->
  safeBasename (trim (asString rawName)) <> [] ->
  exists calls,
    upload outputDir rawName dirExists
    = (Piping (safeBasename (trim (asString rawName))), calls)
    /\ In (CreateWriteStream outputDir (safeBasename (trim (asString rawName))))
          calls.
Proof.
  intros Hstr Hb.
  destruct rawName as [|s|items|fields]; try discriminate.
  simpl in *.
  assert (Ht : trim s <> []).
  { intros Ht. apply Hb. rewrite Ht. reflexivity. }
  rewrite (upload_string outputDir s dirExists Ht).
  apply nonEmpty_true_iff in Hb. rewrite Hb.
  eexists. split; [reflexivity|]. apply in_or_app. right. left. reflexivity.
Qed.

End ServerFacts.

(** ** Rational helpers *)

Module NumFacts.
Import Client Notions.
Local Open Scope Q_scope.

Lemma Qltb_true_iff (a b : Q) : Qltb a b = true <-> a < b.
Proof.
  unfold Qltb. rewrite negb_true_iff. split.
  - intros H. apply Qnot_le_lt. intros Hle.
    apply Qle_bool_iff in Hle. congruence.
  - intros H. destruct (Qle_bool b a) eqn:E; [|reflexivity].
    apply Qle_bool_iff in E. exfalso. exact (Qlt_not_le _ _ H E).
Qed.

Lemma Qltb_false_iff (a b : Q) : Qltb a b = false <-> b <= a.
Proof.
  unfold Qltb. rewrite negb_false_iff. apply Qle_bool_iff.
Qed.

Lemma Qmax_spec (a b : Q) :
  (a <= b /\ Qmax a b = b) \/ (b < a /\ Qmax a b = a).
Proof.
  unfold Qmax. destruct (Qle_bool a b) eqn:E.
  - left. split; [apply Qle_bool_iff, E|reflexivity].
  - right. split; [|reflexivity]. apply Qltb_true_iff. unfold Qltb.
    rewrite E. reflexivity.
Qed.

Lemma Qmin_spec (a b : Q) :
  (a <= b /\ Qmin a b = a) \/ (b < a /\ Qmin a b = b).
Proof.
  unfold Qmin. destruct (Qle_bool a b) eqn:E.
  - left. split; [apply Qle_bool_iff, E|reflexivity].
  - right. split; [|reflexivity]. apply Qltb_true_iff. unfold Qltb.
    rewrite E. reflexivity.
Qed.

(** The clamp of [makeBar] lands in the unit interval. *)
Lemma clamp_unit (p : Q) : 0 <= Qmax 0 (Qmin 1 p) <= 1.
Proof.
  destruct (Qmin_spec 1 p) as [[H1 ->]|[H1 ->]];
    destruct (Qmax_spec 0 1) as [[H2 E2]|[H2 E2]];
    destruct (Qmax_spec 0 p) as [[H3 E3]|[H3 E3]];
    rewrite ?E2, ?E3; lra.
Qed.

Lemma clamp_is_clamp01 (p : Q) : Qmax 0 (Qmin 1 p) == clamp01 p.
Proof.
  unfold clamp01.
  destruct (Qltb p 0) eqn:E0; [apply Qltb_true_iff in E0|apply Qltb_false_iff in E0];
    (destruct (Qltb 1 p) eqn:E1;
     [apply Qltb_true_iff in E1|apply Qltb_false_iff in E1]);
    destruct (Qmin_spec 1 p) as [[H1 ->]|[H1 ->]];
    try (destruct (Qmax_spec 0 1) as [[H2 ->]|[H2 ->]]);
    try (destruct (Qmax_spec 0 p) as [[H3 ->]|[H3 ->]]);
    lra.
Qed.

(** [Math.round] picks the integer nearest to its argument, the upper one
    on a tie. *)
Lemma Math_round_nearest (x : Q) :
  inject_Z (Math_round x) <= x + (1 # 2) /\ x + (1 # 2) < inject_Z (Math_round x) + 1.
Proof.
  unfold Math_round. split.
  - apply Qfloor_le.
  - pose proof (Qlt_floor (x + (1 # 2))) as H.
    rewrite inject_Z_plus in H. exact H.
Qed.

Lemma Math_round_bounds (x : Q) (w : Z) :
  0 <= x <= inject_Z w -> (0 <= Math_round x <= w)%Z.
Proof.
  intros [H0 Hw]. destruct (Math_round_nearest x) as [Hlo Hhi].
  split.
  - assert (H : inject_Z (-1) < inject_Z (Math_round x)).
    { change (inject_Z (-1)) with (-1 # 1). lra. }
    rewrite <- Zlt_Qlt in H. lia.
  - assert (H : inject_Z (Math_round x) < inject_Z (w + 1)).
    { rewrite inject_Z_plus. change (inject_Z 1) with 1. lra. }
    rewrite <- Zlt_Qlt in H. lia.
Qed.

End NumFacts.

(** ** The progress bar *)

Module BarFacts.
Import Client Notions NumFacts.
Local Open Scope Q_scope.

Lemma repeat_unit (c : N) (n : Z) :
  (0 <= n)%Z -> JS.repeat [c] n = Some (List.repeat c (Z.to_nat n)).
Proof.
  intros Hn. unfold JS.repeat.
  destruct (Z.ltb_spec n 0) as [H|_]; [lia|]. f_equal.
  induction (Z.to_nat n) as [|k IH]; simpl; [reflexivity|now rewrite IH].
Qed.

Lemma len_repeat (c : N) (n : nat) : len (List.repeat c n) = Z.of_nat n.
Proof. unfold len. now rewrite repeat_length. Qed.

Lemma makeBar_value (p : Q) (w : Z) :
  (0 <= w)%Z ->
  let filled := Math_round (Qmax 0 (Qmin 1 p) * inject_Z w) in
  (0 <= filled <= w)%Z /\ makeBar p w = Some (barOf filled w).
Proof.
  intros Hw filled.
  assert (Hb : (0 <= filled <= w)%Z).
  { apply Math_round_bounds. pose proof (clamp_unit p) as [Hc0 Hc1].
    assert (Hw' : 0 <= inject_Z w) by (rewrite Zle_Qle in Hw; exact Hw).
    split; [apply Qmult_le_0_compat; assumption|].
    rewrite <- (Qmult_1_l (inject_Z w)) at 2.
    apply Qmult_le_compat_r; assumption. }
  split; [exact Hb|].
  unfold makeBar. fold filled. unfold filledChar, emptyChar.
  rewrite !repeat_unit by lia. reflexivity.
Qed.

Lemma len_barOf (filled w : Z) :
  (0 <= filled <= w)%Z -> len (barOf filled w) = (w + 2)%Z.
Proof.
  intros H. unfold barOf. rewrite !len_app, !len_repeat.
  change (len (lit "[")) with 1%Z. change (len (lit "]")) with 1%Z. lia.
Qed.

Lemma count_barOf (filled w : Z) :
  count_occ N.eq_dec (barOf filled w) filledUnit = Z.to_nat filled
  /\ count_occ N.eq_dec (barOf filled w) emptyUnit = Z.to_nat (w - filled).
Proof.
  unfold barOf. rewrite !count_occ_app.
  rewrite (@count_occ_repeat_eq N N.eq_dec filledUnit filledUnit) by reflexivity.
  rewrite (@count_occ_repeat_eq N N.eq_dec emptyUnit emptyUnit) by reflexivity.
  rewrite (@count_occ_repeat_neq N N.eq_dec filledUnit emptyUnit) by discriminate.
  rewrite (@count_occ_repeat_neq N N.eq_dec emptyUnit filledUnit) by discriminate.
  change (lit "[") with [91%N]. change (lit "]") with [93%N].
  cbn. split; lia.
Qed.

End BarFacts.

(** ** Decimal rendering and [formatHMS] *)

Module HMSFacts.
Import Client Notions.

Local Open Scope Z_scope.

Lemma readFrom_app (a : Z) (s t : jsstring) :
  readFrom a (s ++ t) = readFrom (readFrom a s) t.
Proof. unfold readFrom. apply fold_left_app. Qed.

Lemma digitUnit_isDigit (n : Z) : 0 <= n -> isDigit (digitUnit (n mod 10)).
Proof.
  intros Hn. unfold isDigit, digitUnit.
  pose proof (Z.mod_pos_bound n 10 ltac:(lia)). lia.
Qed.

Lemma readFrom_unit (a d : Z) :
  0 <= d -> readFrom a [digitUnit d] = 10 * a + d.
Proof.
  intros Hd. unfold readFrom, digitUnit. cbn [fold_left].
  rewrite Z2N.id by lia. lia.
Qed.

Lemma single_digit (n : Z) :
  0 <= n < 10 ->
  Forall isDigit [digitUnit (n mod 10)]
  /\ forall a, readFrom a [digitUnit (n mod 10)] = a * 10 ^ 1 + n.
Proof.
  intros Hn. rewrite Z.mod_small by lia. split.
  - constructor; [|constructor]. unfold isDigit, digitUnit. lia.
  - intros a. rewrite readFrom_unit by lia. lia.
Qed.

(** [digits] puts the decimal digits of [n] in front of [acc], given fuel
    for them. *)
Lemma digits_spec (fuel : nat) :
  forall (n : Z) (acc : jsstring),
    0 <= n < 2 ^ (Z.of_nat fuel + 1) ->
    exists d,
      digits fuel n acc = d ++ acc
      /\ d <> []
      /\ Forall isDigit d
      /\ forall a, readFrom a d = a * 10 ^ len d + n.
Proof.
  induction fuel as [|f IH]; intros n acc Hn.
  - change (2 ^ (Z.of_nat 0 + 1)) with 2 in Hn.
    exists [digitUnit (n mod 10)].
    destruct (single_digit n ltac:(lia)) as [Hdig Hread].
    split; [reflexivity|]. split; [discriminate|]. split; assumption.
  - cbn [digits]. destruct (Z.ltb_spec n 10) as [Hlt|Hge].
    + exists [digitUnit (n mod 10)].
      destruct (single_digit n ltac:(lia)) as [Hdig Hread].
      split; [reflexivity|]. split; [discriminate|]. split; assumption.
    + assert (Hdiv : 0 <= n / 10 < 2 ^ (Z.of_nat f + 1)).
      { split; [apply Z.div_pos; lia|].
        apply Z.div_lt_upper_bound; [lia|].
        replace (Z.of_nat (S f) + 1) with (Z.succ (Z.of_nat f + 1)) in Hn by lia.
        rewrite Z.pow_succ_r in Hn by lia.
        assert (0 < 2 ^ (Z.of_nat f + 1)) by (apply Z.pow_pos_nonneg; lia).
        lia. }
      destruct (IH (n / 10) (Z.to_N (48 + n mod 10) :: acc) Hdiv)
        as (d & Hd & Hne & Hdig & Hread).
      pose proof (Z.mod_pos_bound n 10 ltac:(lia)) as Hmod.
      exists (d ++ [digitUnit (n mod 10)]).
      split; [rewrite Hd, <- app_assoc; reflexivity|].
      split; [destruct d; discriminate|].
      split.
      * apply Forall_app. split; [exact Hdig|].
        constructor; [apply digitUnit_isDigit; lia|constructor].
      * intros a. rewrite readFrom_app, Hread, len_app.
        change (len [digitUnit (n mod 10)]) with 1.
        rewrite Z.pow_add_r by (try apply len_nonneg; lia).
        rewrite readFrom_unit by lia.
        pose proof (Z.div_mod n 10 ltac:(lia)). lia.
Qed.

Lemma String_int_spec (n : Z) :
  0 <= n ->
  String_int n <> []
  /\ Forall isDigit (String_int n)
  /\ decimalValue (String_int n) = n.
Proof.
  intros Hn. unfold String_int.
  assert (Hfuel : 0 <= n < 2 ^ (Z.of_nat (Z.to_nat (Z.log2 n)) + 1)).
  { split; [exact Hn|]. rewrite Z2Nat.id by apply Z.log2_nonneg.
    destruct (Z.eq_dec n 0) as [->|Hnz]; [reflexivity|].
    replace (Z.log2 n + 1) with (Z.succ (Z.log2 n)) by lia.
    apply Z.log2_spec. lia. }
  destruct (digits_spec _ n [] Hfuel) as (d & Hd & Hne & Hdig & Hread).
  rewrite app_nil_r in Hd. rewrite Hd. repeat split; auto.
  unfold decimalValue. fold (readFrom 0 d). rewrite Hread. lia.
Qed.

Lemma digits_one (fuel : nat) (n : Z) (acc : jsstring) :
  n < 10 -> digits fuel n acc = digitUnit (n mod 10) :: acc.
Proof.
  intros Hn. destruct fuel; cbn [digits]; [reflexivity|].
  destruct (Z.ltb_spec n 10); [reflexivity|lia].
Qed.

(** Below 100 the padded rendering is the tens digit and the units digit. *)
Lemma pad2_small (n : Z) :
  0 <= n < 100 ->
  padStart (String_int n) 2 zeroChar = [digitUnit (n / 10); digitUnit (n mod 10)].
Proof.
  intros Hn. unfold String_int.
  destruct (Z.ltb_spec n 10) as [Hlt|Hge].
  - rewrite digits_one by exact Hlt. rewrite Z.div_small by lia. reflexivity.
  - assert (Hlog : 3 <= Z.log2 n) by (apply Z.log2_le_pow2; simpl; lia).
    destruct (Z.to_nat (Z.log2 n)) as [|f] eqn:E; [lia|].
    cbn [digits]. destruct (Z.ltb_spec n 10) as [|_]; [lia|].
    assert (Hq : 0 <= n / 10 < 10).
    { split; [apply Z.div_pos; lia|apply Z.div_lt_upper_bound; lia]. }
    rewrite digits_one by lia.
    rewrite (Z.mod_small (n / 10)) by lia. reflexivity.
Qed.

Lemma padStart_digits (s : jsstring) :
  s <> [] -> Forall isDigit s ->
  let p := padStart s 2 zeroChar in
  Forall isDigit p /\ 2 <= len p /\ decimalValue p = decimalValue s.
Proof.
  intros Hne Hdig p. unfold p, padStart.
  destruct s as [|c [|c' r]]; [contradiction| |].
  - change (Z.to_nat (2 - len [c])) with 1%nat. cbn [List.repeat app].
    split; [|split].
    + constructor; [unfold isDigit, zeroChar; lia|exact Hdig].
    + unfold len. cbn [List.length]. lia.
    + reflexivity.
  - assert (E : Z.to_nat (2 - len (c :: c' :: r)) = 0%nat)
      by (unfold len; cbn [List.length]; lia).
    rewrite E. cbn [List.repeat app].
    split; [exact Hdig|]. split; [|reflexivity].
    unfold len. cbn [List.length]. lia.
Qed.

Lemma Qfloor_nonneg (q : Q) : (0 <= q)%Q -> 0 <= Qfloor q.
Proof.
  intros Hq. change 0 with (Qfloor 0). apply Qfloor_resp_le, Hq.
Qed.

Lemma formatHMS_zeroed (x : Number) :
  isFinite x = false \/ ltZero x = true -> formatHMS x = lit "00:00:00".
Proof.
  intros H. unfold formatHMS.
  assert (E : negb (isFinite x) || ltZero x = true).
  { destruct H as [-> | ->]; [reflexivity|apply orb_true_r]. }
  rewrite E. reflexivity.
Qed.

(** C9.  [formatHMS] sends 0 to ["00:00:00"], 3661 to ["01:01:01"], and
    every negative or non-finite input to ["00:00:00"].  A finite
    non-negative input is floored to whole seconds [s]; the result is the
    hours [s / 3600] in at least two decimal digits, a colon, the minutes
    in exactly two digits, a colon, and the seconds in exactly two digits,
    with minutes and seconds below 60 and
    [s = hours * 3600 + minutes * 60 + seconds]. *)
Theorem formatHMS_renders :
  formatHMS (Fin 0) = lit "00:00:00"
  /\ formatHMS (Fin (inject_Z 3661)) = lit "01:01:01"
  /\ (forall x, isFinite x = false \/ ltZero x = true ->
                formatHMS x = lit "00:00:00")
  /\ (forall q : Q,
        (0 <= q)%Q ->
        let s := Qfloor q in
        let h := s / 3600 in
        let m := s mod 3600 / 60 in
        let sec := s mod 60 in
        s = h * 3600 + m * 60 + sec
        /\ 0 <= h /\ 0 <= m < 60 /\ 0 <= sec < 60
        /\ exists hh,
            formatHMS (Fin q)
            = hh ++ colon ++ [digitUnit (m / 10); digitUnit (m mod 10)]
                 ++ colon ++ [digitUnit (sec / 10); digitUnit (sec mod 10)]
            /\ Forall isDigit hh /\ 2 <= len hh /\ decimalValue hh = h).
Proof.
  split; [reflexivity|]. split; [reflexivity|]. split; [exact formatHMS_zeroed|].
  intros q Hq s h m sec.
  pose proof (Qfloor_nonneg q Hq) as Hs. fold s in Hs.
  assert (Hh : 0 <= h) by (apply Z.div_pos; lia).
  assert (Hr : 0 <= s mod 3600 < 3600) by (apply Z.mod_pos_bound; lia).
  assert (Hm : 0 <= m < 60).
  { split; [apply Z.div_pos; lia|apply Z.div_lt_upper_bound; lia]. }
  assert (Hsec : 0 <= sec < 60) by (apply Z.mod_pos_bound; lia).
  assert (Hsum : s = h * 3600 + m * 60 + sec).
  { unfold h, m, sec.
    pose proof (Z.div_mod s 3600 ltac:(lia)) as E1.
    pose proof (Z.div_mod (s mod 3600) 60 ltac:(lia)) as E2.
    assert (E3 : (s mod 3600) mod 60 = s mod 60).
    { symmetry. rewrite E1 at 1.
      replace (3600 * (s / 3600) + s mod 3600)
        with (s mod 3600 + (60 * (s / 3600)) * 60) by ring.
      apply Z.mod_add. lia. }
    lia. }
  split; [exact Hsum|]. split; [exact Hh|]. split; [exact Hm|].
  split; [exact Hsec|].
  destruct (String_int_spec h Hh) as (Hne & Hdig & Hval).
  destruct (padStart_digits (String_int h) Hne Hdig) as (Hpd & Hpl & Hpv).
  exists (padStart (String_int h) 2 zeroChar).
  split; [|split; [exact Hpd|split; [exact Hpl|congruence]]].
  unfold formatHMS. cbn [isFinite negb orb ltZero finitePart].
  assert (E : Qltb q 0 = false) by (apply NumFacts.Qltb_false_iff; exact Hq).
  rewrite E. fold s.
  rewrite !Z.rem_mod_nonneg by lia. fold h m sec.
  rewrite (pad2_small m) by lia. rewrite (pad2_small sec) by lia.
  reflexivity.
Qed.

Lemma formatHMS_renders_witness :
  (exists hh, formatHMS (Fin (7323 # 2)) = hh ++ lit ":01:01"
              /\ decimalValue hh = 1)
  /\ formatHMS NaN = lit "00:00:00"
  /\ formatHMS (Fin (-5 # 1)) = lit "00:00:00".
Proof.
  destruct formatHMS_renders as (_ & _ & Hzero & Hfin).
  split; [|split].
  - assert (Hq : (0 <= 7323 # 2)%Q) by (unfold Qle; simpl; lia).
    destruct (Hfin (7323 # 2)%Q Hq) as (_ & _ & _ & _ & hh & Hfmt & _ & _ & Hval).
    exists hh. split; [exact Hfmt|exact Hval].
  - apply Hzero. left. reflexivity.
  - apply Hzero. right. reflexivity.
Defined.

End HMSFacts.

(** ** Drawing the status line *)

Module DrawFacts.
Import Client Notions NumFacts BarFacts.

Local Open Scope Z_scope.

Lemma len_blanks (n : Z) : 0 <= n -> len (blanks n) = n.
Proof. intros Hn. unfold blanks. rewrite len_repeat. lia. Qed.

Lemma barWidth_range (t : Terminal) (n : Z) : 5 <= barWidth t n <= BAR_WIDTH.
Proof.
  unfold barWidth, BAR_WIDTH.
  destruct (0 <? (if isTTY t then columnsOrZero t else 0)); lia.
Qed.

Lemma len_firstn_le (s : jsstring) (n : nat) : len (firstn n s) <= Z.of_nat n.
Proof. unfold len. rewrite length_firstn. lia. Qed.

(** Truncation leaves at most [cols - 1] code units. *)
Lemma truncated_len (cols : Z) (line : jsstring) :
  0 < cols -> len (truncated cols line) <= cols - 1.
Proof.
  intros Hc. unfold truncated.
  destruct (Z.ltb_spec 0 cols) as [_|H]; [|lia]. cbn [andb].
  destruct (Z.ltb_spec (cols - 1) (len line)) as [Hlong|Hshort]; [|lia].
  unfold slice.
  destruct (Z.ltb_spec (cols - 1) 0) as [H|_]; [lia|].
  destruct (Z.ltb_spec 0 0) as [H|_]; [lia|].
  pose proof (len_nonneg line) as Hl.
  pose proof (len_firstn_le (skipn (Z.to_nat (Z.min 0 (len line))) line)
                (Z.to_nat (Z.min (cols - 1) (len line) - Z.min 0 (len line)))).
  lia.
Qed.

(** A line that already fits is written whole. *)
Lemma truncated_short (cols : Z) (line : jsstring) :
  len line <= cols - 1 -> truncated cols line = line.
Proof.
  intros H. unfold truncated.
  destruct (Z.ltb_spec (cols - 1) (len line)) as [Hlong|_]; [lia|].
  now rewrite andb_false_r.
Qed.

Lemma writeStatusLine_tty (t : Terminal) (last : Z) (line : jsstring) :
  isTTY t = true ->
  let out := truncated (columnsOrZero t) line in
  writeStatusLine t last line
  = Some (StdoutWrite (clearLine ++ (out ++ blanks (Z.max 0 (last - len out)))),
          len out).
Proof.
  intros Htty out. unfold writeStatusLine. rewrite Htty. cbn [negb].
  fold out. change (lit " ") with [32%N].
  rewrite repeat_unit by lia. reflexivity.
Qed.

Lemma writeStatusLine_pipe (t : Terminal) (last : Z) (line : jsstring) :
  isTTY t = false ->
  writeStatusLine t last line = Some (ConsoleLog line, last).
Proof. intros Htty. unfold writeStatusLine. now rewrite Htty. Qed.

Section Main.

Variable totalBytes : Z.

Lemma len_statusLine (t : Terminal) (sfx : jsstring) (st : State) :
  len (statusLine totalBytes t sfx st) = barWidth t (len sfx) + 3 + len sfx.
Proof.
  unfold statusLine. pose proof (barWidth_range t (len sfx)) as Hw.
  destruct (makeBar_value (progress01 totalBytes (uploadedBytes st))
              (barWidth t (len sfx)) ltac:(lia)) as [Hb _].
  rewrite !len_app, len_barOf by exact Hb.
  change (len (lit " ")) with 1. lia.
Qed.

(** [draw] never raises: it appends one output and only touches
    [lastRenderedLen] besides. *)
Lemma draw_spec (t : Terminal) (sfx : jsstring) (st : State) :
  let line := statusLine totalBytes t sfx st in
  let out := truncated (columnsOrZero t) line in
  draw totalBytes t sfx st =
    Some (if isTTY t
          then mkState (uploadedBytes st) (forwarded st) (lastBytes st)
                 (lastTime st) (emaBytesPerSec st) (len out)
                 (outputs st ++
                  [StdoutWrite
                     (clearLine ++
                      (out ++ blanks (Z.max 0 (lastRenderedLen st - len out))))])
          else mkState (uploadedBytes st) (forwarded st) (lastBytes st)
                 (lastTime st) (emaBytesPerSec st) (lastRenderedLen st)
                 (outputs st ++ [ConsoleLog line])).
Proof.
  intros line out. unfold draw.
  pose proof (barWidth_range t (len sfx)) as Hw.
  destruct (makeBar_value (progress01 totalBytes (uploadedBytes st))
              (barWidth t (len sfx)) ltac:(lia)) as [_ Hbar].
  rewrite Hbar. fold (statusLine totalBytes t sfx st). fold line.
  destruct (isTTY t) eqn:Htty.
  - rewrite (writeStatusLine_tty t _ line Htty). reflexivity.
  - rewrite (writeStatusLine_pipe t _ line Htty). reflexivity.
Qed.

End Main.

End DrawFacts.

(** ** The event loop: counting and sampling *)

Module LoopFacts.
Import Client Notions NumFacts BarFacts DrawFacts.

Local Open Scope Z_scope.

Lemma sample_keeps (now : Z) (st : State) :
  uploadedBytes (sample now st) = uploadedBytes st
  /\ forwarded (sample now st) = forwarded st
  /\ lastRenderedLen (sample now st) = lastRenderedLen st
  /\ outputs (sample now st) = outputs st.
Proof. unfold sample. destruct (Qltb 0 (dtSec now st)); auto. Qed.

Lemma sample_skip (now : Z) (st : State) :
  (dtSec now st <= 0)%Q -> sample now st = st.
Proof.
  intros H. unfold sample. apply Qltb_false_iff in H. now rewrite H.
Qed.

Lemma sample_valid (now : Z) (st : State) :
  (0 < dtSec now st)%Q ->
  sample now st =
    mkState (uploadedBytes st) (forwarded st) (uploadedBytes st) now
      (if Qeq_bool (emaBytesPerSec st) 0 then instRate now st
       else SPEED_ALPHA * instRate now st
            + (1 - SPEED_ALPHA) * emaBytesPerSec st)%Q
      (lastRenderedLen st) (outputs st).
Proof.
  intros H. unfold sample. apply Qltb_true_iff in H. now rewrite H.
Qed.

Lemma totalLength_nonneg (chunks : list Buffer) : 0 <= totalLength chunks.
Proof.
  induction chunks as [|c r IH]; simpl; [lia|]. unfold byteLength. lia.
Qed.

Lemma totalLength_app (a b : list Buffer) :
  totalLength (a ++ b) = totalLength a + totalLength b.
Proof. induction a as [|c r IH]; simpl; lia. Qed.

Lemma chunksOf_app (a b : list Event) :
  chunksOf (a ++ b) = chunksOf a ++ chunksOf b.
Proof. unfold chunksOf. apply flat_map_app. Qed.

Lemma chunksOf_Data (chunks : list Buffer) :
  chunksOf (List.map Data chunks) = chunks.
Proof. induction chunks as [|c r IH]; simpl; [reflexivity|now rewrite IH]. Qed.

Section Main.

Variable totalBytes : Z.

(** A tick never raises; it is the sampling followed by one output. *)
Lemma tick_spec (now : Z) (t : Terminal) (st : State) :
  exists l o,
    tick totalBytes now t st =
      Some (mkState (uploadedBytes st) (forwarded st)
              (lastBytes (sample now st)) (lastTime (sample now st))
              (emaBytesPerSec (sample now st)) l (outputs st ++ [o])).
Proof.
  unfold tick. rewrite draw_spec.
  destruct (sample_keeps now st) as (Hu & Hf & Hl & Ho).
  rewrite Hu, Hf, Ho.
  destruct (isTTY t); eexists; eexists; reflexivity.
Qed.

Lemma run_app (a b : list Event) (st : State) :
  run totalBytes (a ++ b) st =
    match run totalBytes a st with
    | Some st' => run totalBytes b st'
    | None => None
    end.
Proof.
  revert st. induction a as [|e a IH]; intros st; simpl; [reflexivity|].
  destruct (step totalBytes e st); [apply IH|reflexivity].
Qed.

Lemma step_counts (e : Event) (st : State) :
  exists st',
    step totalBytes e st = Some st'
    /\ uploadedBytes st' = uploadedBytes st + totalLength (chunksOf [e])
    /\ forwarded st' = forwarded st ++ chunksOf [e].
Proof.
  destruct e as [chunk|now t].
  - eexists. split; [reflexivity|]. simpl. split; [lia|reflexivity].
  - destruct (tick_spec now t st) as (l & o & Htick).
    eexists. split; [exact Htick|]. simpl. rewrite app_nil_r. split; [lia|reflexivity].
Qed.

(** The loop never raises, and at any point the counter is the total
    length of the chunks seen, which have been forwarded as they came. *)
Lemma run_counts (evs : list Event) :
  forall st, exists st',
    run totalBytes evs st = Some st'
    /\ uploadedBytes st' = uploadedBytes st + totalLength (chunksOf evs)
    /\ forwarded st' = forwarded st ++ chunksOf evs.
Proof.
  induction evs as [|e evs IH]; intros st.
  - exists st. simpl. rewrite app_nil_r. repeat split; lia.
  - destruct (step_counts e st) as (st1 & Hstep & Hu1 & Hf1).
    destruct (IH st1) as (st' & Hrun & Hu & Hf).
    exists st'. cbn [run]. rewrite Hstep. split; [exact Hrun|].
    change (e :: evs) with ([e] ++ evs).
    rewrite chunksOf_app, totalLength_app, Hu, Hf, Hu1, Hf1, app_assoc.
    split; [lia|reflexivity].
Qed.

End Main.

(** The sum of the chunks' lengths is the number of bytes of their
    concatenation. *)
Lemma totalLength_concat (chunks : list Buffer) :
  totalLength chunks = Z.of_nat (List.length (List.concat chunks)).
Proof.
  induction chunks as [|c r IH]; [reflexivity|].
  change (totalLength (c :: r)) with (byteLength c + totalLength r).
  cbn [List.concat]. rewrite length_app, Nat2Z.inj_add, IH. reflexivity.
Qed.

(** C3.  Whatever chunks arrive, in whatever interleaving with timer
    ticks, the wrapper has forwarded exactly those chunks, in order and
    unchanged, and [uploadedBytes] is the number of bytes in them (the
    length of their concatenation); this holds after each event, so the
    counter never decreases as the run goes on and ends at the total
    length [N] of the chunks.  A stream of chunks alone is the special
    case without ticks. *)
Theorem counter_forwards_and_counts
    (totalBytes t0 : Z) (t : Terminal) (evs : list Event) :
  (exists st,
      run totalBytes evs (init t0 t) = Some st
      /\ forwarded st = chunksOf evs
      /\ uploadedBytes st = Z.of_nat (List.length (List.concat (chunksOf evs)))
      /\ forall more, exists st2,
           run totalBytes (evs ++ more) (init t0 t) = Some st2
           /\ uploadedBytes st <= uploadedBytes st2
           /\ uploadedBytes st2
              = Z.of_nat (List.length (List.concat (chunksOf (evs ++ more)))))
  /\ (forall chunks : list Buffer,
        fold_left (fun st c => transform c st) chunks (init t0 t)
        = mkState (Z.of_nat (List.length (List.concat chunks))) chunks
            0 t0 0 0 (enableNoWrap t)).
Proof.
  split.
  - destruct (run_counts totalBytes evs (init t0 t)) as (st & Hrun & Hu & Hf).
    exists st. simpl in Hu, Hf. rewrite <- totalLength_concat.
    repeat split; auto.
    intros more.
    destruct (run_counts totalBytes more st) as (st2 & Hrun2 & Hu2 & Hf2).
    exists st2. rewrite run_app, Hrun. split; [exact Hrun2|].
    pose proof (totalLength_nonneg (chunksOf more)).
    rewrite <- totalLength_concat, chunksOf_app, totalLength_app. lia.
  - intros chunks.
    assert (H : forall st,
               fold_left (fun st c => transform c st) chunks st
               = mkState (uploadedBytes st + totalLength chunks)
                   (forwarded st ++ chunks) (lastBytes st) (lastTime st)
                   (emaBytesPerSec st) (lastRenderedLen st) (outputs st)).
    { induction chunks as [|c r IH]; intros st.
      - simpl. rewrite Z.add_0_r, app_nil_r. destruct st; reflexivity.
      - cbn [fold_left]. rewrite IH. unfold transform.
        cbn [uploadedBytes forwarded lastBytes lastTime emaBytesPerSec
             lastRenderedLen outputs].
        change (totalLength (c :: r)) with (byteLength c + totalLength r).
        rewrite <- app_assoc. cbn [app]. f_equal. lia. }
    rewrite H, totalLength_concat. reflexivity.
Qed.

(** Two chunks of five bytes with a tick between them: both are passed
    on and the counter stands at ten. *)
Lemma counter_forwards_and_counts_witness :
  exists st,
    run 10 [Data fiveBytes; Tick 100 pipeTerminal; Data fiveBytes]
        (init 0 pipeTerminal) = Some st
    /\ forwarded st = [fiveBytes; fiveBytes]
    /\ uploadedBytes st = 10.
Proof.
  destruct (counter_forwards_and_counts 10 0 pipeTerminal
              [Data fiveBytes; Tick 100 pipeTerminal; Data fiveBytes])
    as [(st & Hrun & Hf & Hu & _) _].
  exists st. split; [exact Hrun|]. split; [exact Hf|exact Hu].
Defined.

End LoopFacts.

(** ** The rate estimator *)

Module RateFacts.
Import Client Notions NumFacts BarFacts DrawFacts LoopFacts.

Local Open Scope Q_scope.

Lemma Qeq_bool_true (a : Q) : a == 0 -> Qeq_bool a 0 = true.
Proof. apply Qeq_bool_iff. Qed.

Lemma Qeq_bool_false (a : Q) : ~ a == 0 -> Qeq_bool a 0 = false.
Proof.
  intros H. destruct (Qeq_bool a 0) eqn:E; [|reflexivity].
  exfalso. apply H, Qeq_bool_iff, E.
Qed.

Section Main.

Variable totalBytes : Z.

(** What one tick does to the estimator's variables. *)
Lemma tick_estimator (now : Z) (t : Terminal) (st : State) :
  exists st',
    tick totalBytes now t st = Some st'
    /\ uploadedBytes st' = uploadedBytes st
    /\ (dtSec now st <= 0 ->
        emaBytesPerSec st' = emaBytesPerSec st
        /\ lastBytes st' = lastBytes st /\ lastTime st' = lastTime st)
    /\ (0 < dtSec now st ->
        lastBytes st' = uploadedBytes st /\ lastTime st' = now
        /\ (emaBytesPerSec st == 0 -> emaBytesPerSec st' = instRate now st)
        /\ (~ emaBytesPerSec st == 0 ->
            emaBytesPerSec st'
            = SPEED_ALPHA * instRate now st
              + (1 - SPEED_ALPHA) * emaBytesPerSec st)).
Proof.
  destruct (tick_spec totalBytes now t st) as (l & o & Htick).
  eexists. split; [exact Htick|]. cbn [uploadedBytes emaBytesPerSec lastBytes lastTime].
  split; [reflexivity|]. split.
  - intros Hdt. rewrite (sample_skip now st Hdt). auto.
  - intros Hdt. rewrite (sample_valid now st Hdt).
    cbn [emaBytesPerSec lastBytes lastTime].
    split; [reflexivity|]. split; [reflexivity|]. split; intros He.
    + now rewrite (Qeq_bool_true _ He).
    + now rewrite (Qeq_bool_false _ He).
Qed.


End Main.




(** *** Convergence under a constant rate *)

Lemma blend_error (ema inst R : Q) :
  inst == R ->
  Qabs (SPEED_ALPHA * inst + (1 - SPEED_ALPHA) * ema - R)
  == (1 - SPEED_ALPHA) * Qabs (ema - R).
Proof.
  intros HR.
  assert (E : SPEED_ALPHA * inst + (1 - SPEED_ALPHA) * ema - R
              == (1 - SPEED_ALPHA) * (ema - R)).
  { rewrite HR. unfold SPEED_ALPHA. ring. }
  rewrite E, Qabs_Qmult. reflexivity.
Qed.

(** Over [n] such samples the distance to [R] is multiplied by
    [(1 - alpha)^n]. *)
Lemma constant_rate_error_after (totalBytes : Z) (R : Q) (evs : list Event) :
  0 < R ->
  forall st,
    0 < emaBytesPerSec st ->
    steady totalBytes R evs st ->
    exists st',
      run totalBytes evs st = Some st'
      /\ 0 < emaBytesPerSec st'
      /\ Qabs (emaBytesPerSec st' - R)
         == (1 - SPEED_ALPHA) ^ Z.of_nat (tickCount evs)
            * Qabs (emaBytesPerSec st - R).
Proof.
  intros HR. induction evs as [|e evs IH]; intros st Hpos Hsteady.
  - exists st. split; [reflexivity|]. split; [exact Hpos|].
    cbn [tickCount Z.of_nat Qpower]. ring.
  - cbn [steady run] in *. destruct Hsteady as [Hhere Hrest].
    destruct e as [chunk|now t].
    + cbn [step] in *. destruct (IH (transform chunk st) Hpos Hrest)
        as (st' & Hrun & Hpos' & Herr).
      exists st'. split; [exact Hrun|]. split; [exact Hpos'|exact Herr].
    + destruct Hhere as [Hdt Hinst]. cbn [step] in *.
      destruct (tick_estimator totalBytes now t st)
        as (st1 & Htick & _ & _ & Hvalid).
      rewrite Htick in *.
      destruct (Hvalid Hdt) as (_ & _ & _ & Hblend).
      assert (Hnz : ~ emaBytesPerSec st == 0).
      { intros E. rewrite E in Hpos. exact (Qlt_irrefl 0 Hpos). }
      assert (Hpos1 : 0 < emaBytesPerSec st1).
      { rewrite (Hblend Hnz), Hinst. unfold SPEED_ALPHA. lra. }
      destruct (IH st1 Hpos1 Hrest) as (st' & Hrun & Hpos' & Herr).
      exists st'. split; [exact Hrun|]. split; [exact Hpos'|].
      rewrite Herr, (Hblend Hnz), (blend_error _ _ R Hinst).
      cbn [tickCount]. rewrite Nat2Z.inj_succ, <- Z.add_1_l.
      rewrite Qpower_plus by (unfold SPEED_ALPHA; discriminate).
      rewrite Qpower_1_r. ring.
Qed.

(** *** Sign of the smoothed rate *)

Lemma instRate_sign (now : Z) (st : State) :
  0 < dtSec now st ->
  (lastBytes st <= uploadedBytes st)%Z ->
  0 <= instRate now st
  /\ (0 < instRate now st <-> (lastBytes st < uploadedBytes st)%Z).
Proof.
  intros Hdt Hle. unfold instRate.
  set (d := (uploadedBytes st - lastBytes st)%Z).
  assert (Hd : (0 <= d)%Z) by (unfold d; lia).
  assert (Hd' : 0 <= inject_Z d) by (rewrite Zle_Qle in Hd; exact Hd).
  split.
  - apply Qle_shift_div_l; [exact Hdt|]. rewrite Qmult_0_l. exact Hd'.
  - split.
    + intros Hpos. destruct (Z.eq_dec d 0) as [E|E]; [|unfold d in *; lia].
      exfalso. rewrite E in Hpos. unfold Qdiv in Hpos.
      rewrite Qmult_0_l in Hpos. exact (Qlt_irrefl 0 Hpos).
    + intros Hlt. apply Qlt_shift_div_l; [exact Hdt|]. rewrite Qmult_0_l.
      assert (H : (0 < d)%Z) by (unfold d; lia).
      rewrite Zlt_Qlt in H. exact H.
Qed.

Section Main.

Variable totalBytes : Z.

Lemma step_sound (e : Event) (st : State) :
  sound st ->
  exists st',
    step totalBytes e st = Some st'
    /\ sound st'
    /\ (0 < emaBytesPerSec st -> 0 < emaBytesPerSec st').
Proof.
  intros (Hb & He & Hiff). destruct e as [chunk|now t].
  - eexists. split; [reflexivity|]. split; [|auto].
    unfold sound, transform, byteLength. cbn. repeat split; try lia; tauto.
  - destruct (tick_estimator totalBytes now t st)
      as (st' & Htick & Hu & Hskip & Hvalid).
    exists st'. split; [exact Htick|].
    destruct (Qlt_le_dec 0 (dtSec now st)) as [Hdt|Hdt].
    + destruct (Hvalid Hdt) as (Hlb & _ & Hseed & Hblend).
      destruct (instRate_sign now st Hdt ltac:(lia)) as [Hi0 Hipos].
      unfold sound. rewrite Hu, Hlb.
      destruct (Qeq_dec (emaBytesPerSec st) 0) as [Hz|Hnz].
      * rewrite (Hseed Hz).
        assert (Hl0 : lastBytes st = 0%Z).
        { destruct (Z.eq_dec (lastBytes st) 0) as [E|E]; [exact E|].
          assert (Hp : 0 < emaBytesPerSec st) by (apply Hiff; lia).
          rewrite Hz in Hp. exfalso. exact (Qlt_irrefl 0 Hp). }
        split.
        -- split; [lia|]. split; [exact Hi0|]. rewrite Hipos, Hl0. tauto.
        -- intros Hp. rewrite Hz in Hp. exfalso. exact (Qlt_irrefl 0 Hp).
      * rewrite (Hblend Hnz).
        assert (Hp : 0 < emaBytesPerSec st).
        { destruct (Qle_lt_or_eq _ _ He) as [H|H]; [exact H|].
          exfalso. apply Hnz. symmetry. exact H. }
        assert (Hl : (0 < lastBytes st)%Z) by (apply Hiff; exact Hp).
        assert (Hnew : 0 < SPEED_ALPHA * instRate now st
                           + (1 - SPEED_ALPHA) * emaBytesPerSec st).
        { unfold SPEED_ALPHA. lra. }
        split; [|intros _; exact Hnew].
        split; [lia|]. split; [apply Qlt_le_weak, Hnew|].
        split; [intros _; lia|intros _; exact Hnew].
    + destruct (Hskip Hdt) as (Hema & Hlb & _).
      unfold sound. rewrite Hu, Hema, Hlb. split; [|auto].
      split; [exact Hb|]. split; [exact He|exact Hiff].
Qed.

Lemma run_sound (evs : list Event) :
  forall st,
    sound st ->
    exists st',
      run totalBytes evs st = Some st'
      /\ sound st'
      /\ (0 < emaBytesPerSec st -> 0 < emaBytesPerSec st').
Proof.
  induction evs as [|e evs IH]; intros st Hs.
  - exists st. simpl. auto.
  - destruct (step_sound e st Hs) as (st1 & Hstep & Hs1 & Hp1).
    destruct (IH st1 Hs1) as (st' & Hrun & Hs' & Hp').
    exists st'. cbn [run]. rewrite Hstep. auto.
Qed.

(** A sampled rate that is not zero leaves the estimate positive. *)
Lemma nonzero_rate_positive_ema (evs : list Event) :
  forall st st',
    sound st ->
    run totalBytes evs st = Some st' ->
    emaBytesPerSec st' == 0 ->
    Forall (fun r => r == 0) (rates totalBytes evs st).
Proof.
  induction evs as [|e evs IH]; intros st st' Hs Hrun Hz.
  - constructor.
  - cbn [run rates] in *.
    destruct (step_sound e st Hs) as (st1 & Hstep & Hs1 & Hp1).
    rewrite Hstep in *.
    destruct (run_sound evs st1 Hs1) as (st'' & Hrun' & _ & Hp').
    rewrite Hrun in Hrun'. injection Hrun' as <-.
    assert (Hz1 : emaBytesPerSec st1 == 0).
    { destruct Hs1 as (_ & He1 & _).
      destruct (Qle_lt_or_eq _ _ He1) as [H|H]; [|symmetry; exact H].
      apply Hp' in H. rewrite Hz in H. exfalso. exact (Qlt_irrefl 0 H). }
    apply Forall_app. split; [|apply (IH st1 st'); assumption].
    destruct e as [chunk|now t]; [constructor|].
    destruct (Qltb 0 (dtSec now st)) eqn:Hdt; [|constructor].
    apply Qltb_true_iff in Hdt. constructor; [|constructor].
    cbn [step] in Hstep.
    destruct (tick_estimator totalBytes now t st)
      as (st2 & Htick & _ & _ & Hvalid).
    rewrite Htick in Hstep. injection Hstep as ->.
    destruct (Hvalid Hdt) as (Hlb & _ & _ & _).
    destruct Hs as (Hb & _ & _).
    destruct (instRate_sign now st Hdt ltac:(lia)) as [Hi0 Hipos].
    destruct (Qle_lt_or_eq _ _ Hi0) as [H|H]; [|symmetry; exact H].
    exfalso. apply Hipos in H.
    destruct Hs1 as (Hb1 & _ & Hiff1).
    assert (Hp : 0 < emaBytesPerSec st1) by (apply Hiff1; lia).
    rewrite Hz1 in Hp. exact (Qlt_irrefl 0 Hp).
Qed.

End Main.

Lemma init_sound (t0 : Z) (t : Terminal) : sound (init t0 t).
Proof.
  unfold sound, init. cbn. split; [lia|]. split; [apply Qle_refl|].
  split; [intros H; discriminate H|intros H; lia].
Qed.

Lemma rates_nonneg (totalBytes : Z) (evs : list Event) :
  forall st, sound st -> Forall (fun r => 0 <= r) (rates totalBytes evs st).
Proof.
  induction evs as [|e evs IH]; intros st Hs; [constructor|].
  cbn [rates].
  destruct (step_sound totalBytes e st Hs) as (st1 & Hstep & Hs1 & _).
  rewrite Hstep. apply Forall_app. split; [|apply IH, Hs1].
  destruct e as [chunk|now t]; [constructor|].
  destruct (Qltb 0 (dtSec now st)) eqn:Hdt; [|constructor].
  apply Qltb_true_iff in Hdt. destruct Hs as (Hb & _ & _).
  constructor; [|constructor].
  apply (instRate_sign now st Hdt). lia.
Qed.

(** C10.  Along every run of the event loop from the initial state the
    sampled instantaneous rates are non-negative and so is the smoothed
    rate; once the smoothed rate is positive it is positive after every
    further event; and whenever the smoothed rate is 0, the condition on
    which a sample seeds it, every rate sampled so far was 0: seeding
    never happens after a non-zero instantaneous rate. *)
Theorem smoothed_rate_sign
    (totalBytes t0 : Z) (t : Terminal) (evs : list Event) :
  exists st,
    run totalBytes evs (init t0 t) = Some st
    /\ 0 <= emaBytesPerSec st
    /\ Forall (fun r => 0 <= r) (rates totalBytes evs (init t0 t))
    /\ (0 < emaBytesPerSec st ->
        forall more, exists st2,
          run totalBytes more st = Some st2 /\ 0 < emaBytesPerSec st2)
    /\ (emaBytesPerSec st == 0 ->
        Forall (fun r => r == 0) (rates totalBytes evs (init t0 t))).
Proof.
  destruct (run_sound totalBytes evs (init t0 t) (init_sound t0 t))
    as (st & Hrun & Hs & _).
  exists st. split; [exact Hrun|].
  split; [apply Hs|].
  split; [apply rates_nonneg, init_sound|].
  split.
  - intros Hpos more.
    destruct (run_sound totalBytes more st Hs) as (st2 & Hrun2 & _ & Hp).
    exists st2. auto.
  - intros Hz.
    apply (nonzero_rate_positive_ema totalBytes evs (init t0 t) st);
      [apply init_sound|exact Hrun|exact Hz].
Qed.

Lemma smoothed_rate_sign_witness :
  (exists st st2,
      run 5 [Data fiveBytes; Tick 100 pipeTerminal] (init 0 pipeTerminal) = Some st
      /\ run 5 [Tick 150 pipeTerminal; Tick 200 pipeTerminal] st = Some st2
      /\ 0 < emaBytesPerSec st2)
  /\ Forall (fun r => r == 0)
        (rates 5 [Tick 100 pipeTerminal] (init 0 pipeTerminal)).
Proof.
  split.
  - destruct (smoothed_rate_sign 5 0 pipeTerminal
                [Data fiveBytes; Tick 100 pipeTerminal])
      as (st & Hrun & _ & _ & Hstay & _).
    assert (Hpos : 0 < emaBytesPerSec st).
    { vm_compute in Hrun. injection Hrun as <-. reflexivity. }
    destruct (Hstay Hpos [Tick 150 pipeTerminal; Tick 200 pipeTerminal])
      as (st2 & Hrun2 & Hpos2).
    exists st, st2. auto.
  - destruct (smoothed_rate_sign 5 0 pipeTerminal [Tick 100 pipeTerminal])
      as (st & Hrun & _ & _ & _ & Hzero).
    apply Hzero. vm_compute in Hrun. injection Hrun as <-. reflexivity.
Defined.

(** *** The estimated completion time *)




End RateFacts.

(** ** The status line and the terminal width *)

Module RenderFacts.
Import Client Notions NumFacts BarFacts DrawFacts LoopFacts.

Local Open Scope Z_scope.

(** What [draw] does on an interactive terminal. *)
Lemma draw_on_terminal
    (totalBytes : Z) (t : Terminal) (sfx : jsstring) (st : State) :
  isTTY t = true ->
  let out := truncated (columnsOrZero t) (statusLine totalBytes t sfx st) in
  let pad := blanks (Z.max 0 (lastRenderedLen st - len out)) in
  exists st',
    draw totalBytes t sfx st = Some st'
    /\ outputs st' = outputs st ++ [StdoutWrite (clearLine ++ (out ++ pad))]
    /\ lastRenderedLen st' = len out.
Proof.
  intros Htty out pad. eexists. split.
  - rewrite draw_spec, Htty. reflexivity.
  - split; reflexivity.
Qed.

(** C7.  On an interactive terminal of [cols > 0] columns, for every
    suffix, progress and previous render: the bar is
    [max(5, min(30, cols - suffix.length - 3))] cells wide, so never under
    5; the line composed is that bar with its brackets, a space and the
    suffix, and fits in [cols] whenever the floor of 5 is not needed; the
    line as written by [writeStatusLine] is cut to at most [cols - 1] code
    units; and the blanks appended after it reach exactly as far as the
    previous render did, so the whole write stays within [cols] when the
    previous render did. *)
Theorem status_line_within_columns
    (totalBytes : Z) (t : Terminal) (sfx : jsstring) (st : State) :
  isTTY t = true ->
  0 < columnsOrZero t ->
  let cols := columnsOrZero t in
  let w := barWidth t (len sfx) in
  let line := statusLine totalBytes t sfx st in
  let out := truncated cols line in
  let pad := blanks (Z.max 0 (lastRenderedLen st - len out)) in
  w = Z.max 5 (Z.min 30 (cols - len sfx - 3))
  /\ 5 <= w <= 30
  /\ len line = w + 3 + len sfx
  /\ (5 <= cols - len sfx - 3 -> len line <= cols)
  /\ len out <= cols - 1
  /\ (exists st',
        draw totalBytes t sfx st = Some st'
        /\ outputs st' = outputs st ++ [StdoutWrite (clearLine ++ (out ++ pad))]
        /\ lastRenderedLen st' = len out)
  /\ len (out ++ pad) = Z.max (len out) (lastRenderedLen st)
  /\ (lastRenderedLen st <= cols -> len (out ++ pad) <= cols).
Proof.
  intros Htty Hcols cols w line out pad.
  assert (Hw : w = Z.max 5 (Z.min 30 (cols - len sfx - 3))).
  { unfold w, barWidth. rewrite Htty. fold cols.
    destruct (Z.ltb_spec 0 cols) as [_|H]; [reflexivity|lia]. }
  assert (Hline : len line = w + 3 + len sfx)
    by apply len_statusLine.
  assert (Hout : len out <= cols - 1) by (apply truncated_len; exact Hcols).
  assert (Hpad : len (out ++ pad) = Z.max (len out) (lastRenderedLen st)).
  { unfold pad. rewrite len_app, len_blanks by lia. lia. }
  split; [exact Hw|]. split; [lia|]. split; [exact Hline|].
  split; [lia|]. split; [exact Hout|]. split; [|split; [exact Hpad|lia]].
  apply draw_on_terminal, Htty.
Qed.

Lemma status_line_within_columns_witness :
  len (truncated 40 (statusLine 100 wideTerminal (suffix 100 0 0) startState))
  <= 39
  /\ barWidth wideTerminal (len (suffix 100 0 0)) = 5.
Proof.
  assert (Htty : isTTY wideTerminal = true) by reflexivity.
  assert (Hcols : 0 < columnsOrZero wideTerminal) by reflexivity.
  destruct (status_line_within_columns 100 wideTerminal (suffix 100 0 0)
              startState Htty Hcols) as (Hw & _ & _ & _ & Hout & _).
  split; [exact Hout|]. rewrite Hw. reflexivity.
Defined.

(** On a terminal whose width does not change, every render leaves
    [lastRenderedLen] below the width, so every write of the run stays
    within the columns. *)
Lemma fixed_width_keeps_lastRenderedLen
    (totalBytes : Z) (t : Terminal) (evs : list Event) :
  isTTY t = true ->
  0 < columnsOrZero t ->
  Forall (fun e => match e with Tick _ t' => t' = t | Data _ => True end) evs ->
  forall st,
    lastRenderedLen st <= columnsOrZero t - 1 ->
    exists st',
      run totalBytes evs st = Some st'
      /\ lastRenderedLen st' <= columnsOrZero t - 1.
Proof.
  intros Htty Hcols Hall. induction Hall as [|e evs He Hall IH]; intros st Hst.
  - exists st. split; [reflexivity|exact Hst].
  - cbn [run]. destruct e as [chunk|now t'].
    + cbn [step]. apply IH. exact Hst.
    + subst t'. cbn [step]. unfold tick.
      destruct (draw_on_terminal totalBytes t
                  (suffix totalBytes (uploadedBytes (sample now st))
                     (emaBytesPerSec (sample now st)))
                  (sample now st) Htty) as (st1 & Hdraw & _ & Hlast).
      pose proof (truncated_len (columnsOrZero t)
                    (statusLine totalBytes t
                       (suffix totalBytes (uploadedBytes (sample now st))
                          (emaBytesPerSec (sample now st)))
                       (sample now st)) Hcols) as Hout.
      rewrite Hdraw. apply IH. rewrite Hlast. exact Hout.
Qed.

End RenderFacts.

(** * Further properties of the code *)

(** ** The command line *)

Module CliFacts.
Import Cli MoreNotions.

Local Open Scope Z_scope.

Lemma str_eqb_eq (a b : jsstring) : str_eqb a b = true <-> a = b.
Proof.
  revert b. induction a as [|x a IH]; intros [|y b]; simpl;
    try (split; intros H; [discriminate H|discriminate H]);
    try (split; reflexivity).
  rewrite andb_true_iff, N.eqb_eq, IH. split.
  - intros [-> ->]. reflexivity.
  - intros H. injection H as -> ->. split; reflexivity.
Qed.

Lemma str_eqb_refl (a : jsstring) : str_eqb a a = true.
Proof. apply str_eqb_eq. reflexivity. Qed.

Lemma str_eqb_neq (a b : jsstring) : a <> b -> str_eqb a b = false.
Proof.
  intros H. destruct (str_eqb a b) eqn:E; [|reflexivity].
  apply str_eqb_eq in E. contradiction.
Qed.

Lemma startsWith_refl (p : jsstring) : startsWith p p = true.
Proof.
  induction p as [|x p IH]; simpl; [reflexivity|].
  now rewrite N.eqb_refl, IH.
Qed.

Lemma startsWith_app (s p q : jsstring) :
  startsWith s (p ++ q) = true -> startsWith s p = true.
Proof.
  revert s. induction p as [|y p IH]; intros s H; [destruct s; reflexivity|].
  destruct s as [|x s]; simpl in *; [discriminate H|].
  apply andb_true_iff in H. destruct H as [Hx Hs].
  rewrite Hx. simpl. apply IH, Hs.
Qed.

(** An operand that is not a flag is not [--url] either. *)
Lemma operand_not_url (a : jsstring) :
  startsWith a (lit "--") = false -> str_eqb a (lit "--url") = false.
Proof.
  intros H. destruct (str_eqb a (lit "--url")) eqn:E; [|reflexivity].
  apply str_eqb_eq in E. subst a. discriminate H.
Qed.

Lemma falsy_some (s : jsstring) : falsy (Some s) = false <-> s <> [].
Proof.
  simpl. rewrite Z.eqb_neq. split; intros H E; apply H.
  - subst s. reflexivity.
  - apply len_nil_iff, E.
Qed.

Lemma fromArgs_cons (a : jsstring) (args : list jsstring)
    (file url file' url' : option jsstring) :
  fromArgs args file url file' url' ->
  fromArgs (a :: args) file url file' url'.
Proof.
  intros [Hf Hu]. split.
  - destruct Hf as [Hf|(f & Hf & Hin & Hs)]; [left; exact Hf|].
    right. exists f. repeat split; auto. right. exact Hin.
  - destruct Hu as [Hu|(u & pre & post & Hu & Hne & Hargs)]; [left; exact Hu|].
    right. exists u, (a :: pre), post. repeat split; auto.
    rewrite Hargs. reflexivity.
Qed.

Lemma parseLoop_fromArgs (n : nat) :
  forall args file url file' url',
    (List.length args <= n)%nat ->
    parseLoop args file url = Returned (file', url') ->
    fromArgs args file url file' url'.
Proof.
  induction n as [|n IH]; intros args file url file' url' Hlen Hrun.
  - destruct args; [|simpl in Hlen; lia].
    simpl in Hrun. injection Hrun as <- <-. split; left; reflexivity.
  - destruct args as [|a rest].
    + simpl in Hrun. injection Hrun as <- <-. split; left; reflexivity.
    + simpl in Hlen. cbn [parseLoop] in Hrun.
      destruct (str_eqb a (lit "--url")) eqn:Eurl.
      * apply str_eqb_eq in Eurl. subst a.
        destruct rest as [|next rest']; [discriminate Hrun|].
        destruct (falsy (Some next)) eqn:Enext; [discriminate Hrun|].
        apply falsy_some in Enext. simpl in Hlen.
        apply IH in Hrun; [|lia]. destruct Hrun as [Hf Hu]. split.
        -- destruct Hf as [Hf|(f & Hf & Hin & Hs)]; [left; exact Hf|].
           right. exists f. repeat split; auto. right. right. exact Hin.
        -- destruct Hu as [Hu|(u & pre & post & Hu & Hne & Hargs)].
           ++ right. exists next, [], rest'. repeat split; auto.
           ++ right. exists u, (lit "--url" :: next :: pre), post.
              repeat split; auto. rewrite Hargs. reflexivity.
      * destruct (startsWith a (lit "--")) eqn:Eflag; [discriminate Hrun|].
        destruct (falsy file) eqn:Efile; [|discriminate Hrun].
        apply IH in Hrun; [|lia]. destruct Hrun as [Hf Hu]. split.
        -- destruct Hf as [Hf|(f & Hf & Hin & Hs)].
           ++ right. exists a. repeat split; auto. left. reflexivity.
           ++ right. exists f. repeat split; auto. right. exact Hin.
        -- destruct Hu as [Hu|(u & pre & post & Hu & Hne & Hargs)];
             [left; exact Hu|].
           right. exists u, (a :: pre), post. repeat split; auto.
           rewrite Hargs. reflexivity.
Qed.

(** X1.  When [parseArgs] returns, the file it found, if any, is one of
    the arguments after the script name and does not start with [--];
    the URL, if any, is not empty and is the argument that directly
    follows a [--url]. *)
Theorem parseArgs_takes_from_args
    (argv : list jsstring) (file url : option jsstring) :
  parseArgs argv = Returned (file, url) ->
  (forall f, file = Some f ->
             In f (skipn 2 argv) /\ startsWith f (lit "--") = false)
  /\ (forall u, url = Some u ->
                u <> []
                /\ exists pre post,
                     skipn 2 argv = pre ++ lit "--url" :: u :: post).
Proof.
  intros Hrun. unfold parseArgs in Hrun.
  apply (parseLoop_fromArgs (List.length (skipn 2 argv))) in Hrun; [|lia].
  destruct Hrun as [Hf Hu]. split.
  - intros f ->. destruct Hf as [Hf|(f' & Hf & Hin & Hs)]; [discriminate Hf|].
    injection Hf as ->. auto.
  - intros u ->.
    destruct Hu as [Hu|(u' & pre & post & Hu & Hne & Hargs)]; [discriminate Hu|].
    injection Hu as ->. split; [exact Hne|]. exists pre, post. exact Hargs.
Qed.

Lemma parseArgs_takes_from_args_witness :
  In (lit "a.bin") [lit "a.bin"; lit "--url"; lit "http://h/upload"]
  /\ lit "http://h/upload" <> [].
Proof.
  assert (Hrun : parseArgs [node; script; lit "a.bin"; lit "--url";
                            lit "http://h/upload"]
                 = Returned (Some (lit "a.bin"), Some (lit "http://h/upload")))
    by reflexivity.
  destruct (parseArgs_takes_from_args _ _ _ Hrun) as [Hf Hu].
  destruct (Hf _ eq_refl) as [Hin _]. destruct (Hu _ eq_refl) as [Hne _].
  split; [exact Hin|exact Hne].
Defined.




(** X3.  [--url value] is accepted before or after the file with the same
    result; of two [--url] the later one wins; and the value is taken as
    it is, whatever it looks like, as long as it is not empty. *)
Theorem url_flag_position_and_override (n s f u u' : jsstring) :
  startsWith f (lit "--") = false ->
  f <> [] -> u <> [] -> u' <> [] ->
  parseArgs [n; s; f; lit "--url"; u] = Returned (Some f, Some u)
  /\ parseArgs [n; s; lit "--url"; u; f] = Returned (Some f, Some u)
  /\ parseArgs [n; s; lit "--url"; u'; f; lit "--url"; u]
     = Returned (Some f, Some u).
Proof.
  intros Hf Hfne Hu Hu'.
  apply falsy_some in Hfne. apply falsy_some in Hu. apply falsy_some in Hu'.
  pose proof (operand_not_url f Hf) as Hfurl.
  unfold parseArgs. cbn [skipn parseLoop].
  rewrite !str_eqb_refl, Hfurl, Hf, Hu, ?Hu'. cbn [falsy].
  repeat split; reflexivity.
Qed.

Lemma url_flag_position_and_override_witness :
  parseArgs [node; script; lit "--url"; lit "--old"; lit "a.bin";
             lit "--url"; lit "http://h/"]
  = Returned (Some (lit "a.bin"), Some (lit "http://h/")).
Proof.
  apply (url_flag_position_and_override node script (lit "a.bin")
           (lit "http://h/") (lit "--old"));
    [reflexivity|discriminate|discriminate|discriminate].
Defined.

End CliFacts.

(** ** Trimming *)

Module TrimFacts.
Import Server ServerFacts.

Lemma trimStart_fixed (c : N) (r : jsstring) :
  isWhiteSpace c = false -> trimStart (c :: r) = c :: r.
Proof. intros H. simpl. now rewrite H. Qed.

Lemma trimStart_head (s : jsstring) :
  trimStart s = []
  \/ exists c r, trimStart s = c :: r /\ isWhiteSpace c = false.
Proof.
  induction s as [|c s IH]; [left; reflexivity|].
  simpl. destruct (isWhiteSpace c) eqn:E; [exact IH|].
  right. exists c, s. split; [reflexivity|exact E].
Qed.

Lemma trimStart_idem (s : jsstring) : trimStart (trimStart s) = trimStart s.
Proof.
  destruct (trimStart_head s) as [->|(c & r & -> & Hc)]; [reflexivity|].
  apply trimStart_fixed, Hc.
Qed.

Lemma trimStart_snoc (l : jsstring) (c : N) :
  isWhiteSpace c = false -> trimStart (l ++ [c]) = trimStart l ++ [c].
Proof.
  intros Hc. induction l as [|x l IH]; simpl; [now rewrite Hc|].
  destruct (isWhiteSpace x); [exact IH|reflexivity].
Qed.

Lemma trimEnd_head (c : N) (r : jsstring) :
  isWhiteSpace c = false -> trimEnd (c :: r) = c :: trimEnd r.
Proof.
  intros Hc. unfold trimEnd. simpl rev.
  rewrite (trimStart_snoc _ _ Hc), rev_app_distr. reflexivity.
Qed.

Lemma trimEnd_idem (s : jsstring) : trimEnd (trimEnd s) = trimEnd s.
Proof. unfold trimEnd. now rewrite rev_involutive, trimStart_idem. Qed.

(** What [trim] returns is empty or begins with a unit that is not white
    space, and trimming it again changes nothing. *)
Lemma trim_head (s : jsstring) :
  trim s = [] \/ exists c r, trim s = c :: r /\ isWhiteSpace c = false.
Proof.
  unfold trim. destruct (trimStart_head s) as [->|(c & r & -> & Hc)].
  - left. reflexivity.
  - right. rewrite (trimEnd_head c r Hc). exists c, (trimEnd r). auto.
Qed.

Lemma trim_idem (s : jsstring) : trim (trim s) = trim s.
Proof.
  destruct (trim_head s) as [E|(c & r & E & Hc)].
  - rewrite E. reflexivity.
  - unfold trim at 1. rewrite E, (trimStart_fixed c r Hc), <- E.
    unfold trim. apply trimEnd_idem.
Qed.

(** The last unit of a trimmed string is not white space either. *)
Lemma trim_last (s : jsstring) :
  trim s = [] \/ exists r c, trim s = r ++ [c] /\ isWhiteSpace c = false.
Proof.
  unfold trim, trimEnd.
  destruct (trimStart_head (rev (trimStart s))) as [->|(c & r & -> & Hc)].
  - left. reflexivity.
  - right. exists (rev r), c. split; [reflexivity|exact Hc].
Qed.

(** X4.  The receive handler does not see white space around the
    requested name: a request and the same request with its [fileName]
    trimmed get the same response and make the same filesystem calls. *)
Theorem upload_ignores_surrounding_space
    (outputDir s : jsstring) (dirExists : bool) :
  upload outputDir (QString s) dirExists
  = upload outputDir (QString (trim s)) dirExists.
Proof.
  destruct (list_eq_dec N.eq_dec (trim s) []) as [E|E].
  - unfold upload. cbn [asString]. rewrite trim_idem, E.
    cbn [nonEmpty len List.length Z.of_nat Z.eqb negb].
    now rewrite !orb_true_r.
  - rewrite (upload_string outputDir s dirExists E).
    assert (E' : trim (trim s) <> []) by (rewrite trim_idem; exact E).
    rewrite (upload_string outputDir (trim s) dirExists E'), trim_idem.
    reflexivity.
Qed.

End TrimFacts.

(** ** The configuration file and the destination URL *)

Module ConfigFacts.
Import Cli MoreNotions CliFacts TrimFacts.

Lemma lookup_in (key : jsstring) (fields : list (jsstring * JSON)) (v : JSON) :
  lookup key fields = Some v -> In (key, v) fields.
Proof.
  induction fields as [|[k w] rest IH]; simpl; [discriminate|].
  destruct (str_eqb k key) eqn:E.
  - intros H. injection H as ->. apply str_eqb_eq in E. subst k. now left.
  - intros H. right. apply IH, H.
Qed.

Lemma readDestination_cases (c : ConfigRead) (d : jsstring) :
  readDestinationFromConfig c = inr d <->
  exists fields raw,
    c = Parsed (JObject fields)
    /\ lookup (lit "destination") fields = Some (JString raw)
    /\ trim raw <> [] /\ d = trim raw.
Proof.
  split.
  - destruct c as [m|m|json]; simpl; try discriminate.
    destruct json as [|b|q|s|items|fields]; simpl;
      try (rewrite ?orb_true_r; discriminate).
    destruct (lookup (lit "destination") fields) as [[|b|q|raw|items|fs]|] eqn:L;
      simpl; try discriminate.
    destruct (Server.nonEmpty (trim raw)) eqn:E; simpl; [|discriminate].
    intros H. injection H as <-. exists fields, raw.
    apply ServerFacts.nonEmpty_true_iff in E. auto.
  - intros (fields & raw & -> & L & Hne & ->). simpl. rewrite L. simpl.
    apply ServerFacts.nonEmpty_true_iff in Hne. now rewrite Hne.
Qed.

(** X5.  [readDestinationFromConfig] returns a destination exactly when
    the file parsed to an object whose [destination] is a string with
    something left after trimming; what it returns is that string
    trimmed, so it is not empty and neither begins nor ends with white
    space.  In every other case it throws. *)
Theorem config_destination (c : ConfigRead) :
  (forall d,
      readDestinationFromConfig c = inr d <->
      exists fields raw,
        c = Parsed (JObject fields)
        /\ lookup (lit "destination") fields = Some (JString raw)
        /\ trim raw <> [] /\ d = trim raw)
  /\ (forall d,
        readDestinationFromConfig c = inr d ->
        d <> [] /\ trim d = d
        /\ (exists h r, d = h :: r /\ isWhiteSpace h = false)
        /\ (exists r l, d = r ++ [l] /\ isWhiteSpace l = false)).
Proof.
  split; [intros d; apply readDestination_cases|].
  intros d H. apply readDestination_cases in H.
  destruct H as (fields & raw & _ & _ & Hne & ->).
  split; [exact Hne|]. split; [apply trim_idem|]. split.
  - destruct (trim_head raw) as [E|H]; [contradiction|exact H].
  - destruct (trim_last raw) as [E|H]; [contradiction|exact H].
Qed.

Lemma config_destination_witness :
  readDestinationFromConfig
    (Parsed (JObject [(lit "destination", JString (lit " http://h:3000/upload "))]))
  = inr (lit "http://h:3000/upload")
  /\ trim (lit "http://h:3000/upload") = lit "http://h:3000/upload".
Proof.
  set (c := Parsed (JObject [(lit "destination",
                              JString (lit " http://h:3000/upload "))])).
  destruct (config_destination c) as [Hiff Hshape].
  assert (Hread : readDestinationFromConfig c = inr (lit "http://h:3000/upload")).
  { apply Hiff. exists [(lit "destination", JString (lit " http://h:3000/upload "))],
      (lit " http://h:3000/upload ").
    repeat split. vm_compute. discriminate. }
  split; [exact Hread|]. apply (Hshape _ Hread).
Defined.

Lemma dropParam_getAll (name k : jsstring) (ps : list (jsstring * jsstring)) :
  getAll k (dropParam name ps) = if str_eqb k name then [] else getAll k ps.
Proof.
  induction ps as [|[k' v] rest IH]; simpl; [destruct (str_eqb k name); reflexivity|].
  destruct (str_eqb k' name) eqn:E1.
  - apply str_eqb_eq in E1. subst k'. rewrite IH.
    destruct (str_eqb k name) eqn:E2; [reflexivity|].
    destruct (str_eqb name k) eqn:E3; [|reflexivity].
    apply str_eqb_eq in E3. subst k. rewrite str_eqb_refl in E2. discriminate.
  - simpl. rewrite IH. destruct (str_eqb k name) eqn:E2.
    + apply str_eqb_eq in E2. subst k. now rewrite E1.
    + reflexivity.
Qed.

Lemma setParam_getAll (name value k : jsstring)
    (ps : list (jsstring * jsstring)) :
  getAll k (setParam name value ps)
  = if str_eqb k name then [value] else getAll k ps.
Proof.
  induction ps as [|[k' v] rest IH]; simpl.
  - destruct (str_eqb name k) eqn:E1; destruct (str_eqb k name) eqn:E2;
      try reflexivity.
    + apply str_eqb_eq in E1. subst k. rewrite str_eqb_refl in E2. discriminate.
    + apply str_eqb_eq in E2. subst k. rewrite str_eqb_refl in E1. discriminate.
  - destruct (str_eqb k' name) eqn:E1.
    + apply str_eqb_eq in E1. subst k'. simpl. rewrite dropParam_getAll.
      destruct (str_eqb name k) eqn:E2; destruct (str_eqb k name) eqn:E3;
        try reflexivity.
      * apply str_eqb_eq in E2. subst k. rewrite str_eqb_refl in E3. discriminate.
      * apply str_eqb_eq in E3. subst k. rewrite str_eqb_refl in E2. discriminate.
    + simpl. rewrite IH. destruct (str_eqb k name) eqn:E2; [|reflexivity].
      apply str_eqb_eq in E2. subst k. now rewrite E1.
Qed.

(** X6.  After [buildUploadUrl] the URL carries exactly one [fileName]
    parameter, holding the given name, however many it had; every other
    parameter keeps its values in order; the rest of the URL is
    untouched; and the only error is the base URL failing to parse. *)
Theorem upload_url_has_one_fileName
    (parseURL : jsstring -> option URL) (serialize : URL -> jsstring)
    (baseUrl fileName : jsstring) :
  (parseURL baseUrl = None ->
   buildUploadUrl parseURL serialize baseUrl fileName
   = inl (lit "Invalid destination URL: " ++ baseUrl))
  /\ (forall u,
        parseURL baseUrl = Some u ->
        let u' := withFileName u fileName in
        buildUploadUrl parseURL serialize baseUrl fileName = inr (serialize u')
        /\ getAll (lit "fileName") (searchParams u') = [fileName]
        /\ (forall k, k <> lit "fileName" ->
                      getAll k (searchParams u') = getAll k (searchParams u))
        /\ beforeQuery u' = beforeQuery u /\ fragment u' = fragment u).
Proof.
  split.
  - intros H. unfold buildUploadUrl. now rewrite H.
  - intros u H u'. unfold buildUploadUrl. rewrite H.
    split; [reflexivity|]. unfold u', withFileName. cbn [searchParams].
    split; [|split; [|split; reflexivity]].
    + rewrite setParam_getAll, str_eqb_refl. reflexivity.
    + intros k Hk. rewrite setParam_getAll, (str_eqb_neq _ _ Hk). reflexivity.
Qed.

Lemma upload_url_has_one_fileName_witness :
  getAll (lit "fileName")
    (searchParams (withFileName sampleURL (lit "a.bin"))) = [lit "a.bin"]
  /\ getAll (lit "v") (searchParams (withFileName sampleURL (lit "a.bin")))
     = [lit "1"].
Proof.
  destruct (upload_url_has_one_fileName (fun _ => Some sampleURL) beforeQuery
              (lit "http://h/upload") (lit "a.bin")) as [_ H].
  destruct (H sampleURL eq_refl) as (_ & Hone & Hrest & _).
  split; [exact Hone|]. rewrite (Hrest (lit "v")); [reflexivity|discriminate].
Defined.

(** *** The start of [main] *)

Section Main.

Variable resolve : jsstring -> jsstring.
Variable stat : jsstring -> StatResult.
Variable config : ConfigRead.
Variable parseURL : jsstring -> option URL.
Variable serialize : URL -> jsstring.

Lemma parseArgs_code (argv : list jsstring) (code : Z) (printed : list jsstring) :
  parseArgs argv = Exited code printed -> code = 1%Z.
Proof.
  unfold parseArgs. generalize (@None jsstring) at 1 as file.
  generalize (@None jsstring) as url.
  remember (List.length (skipn 2 argv)) as n eqn:Hn.
  assert (Hlen : (List.length (skipn 2 argv) <= n)%nat) by lia. clear Hn.
  revert Hlen. generalize (skipn 2 argv) as args.
  induction n as [|n IH]; intros args Hlen url file Hrun.
  - destruct args; [discriminate Hrun|simpl in Hlen; lia].
  - destruct args as [|a rest]; [discriminate Hrun|].
    simpl in Hlen. cbn [parseLoop] in Hrun.
    destruct (str_eqb a (lit "--url")).
    + destruct rest as [|next rest'];
        [unfold printUsageAndExit in Hrun; congruence|].
      destruct (falsy (Some next));
        [unfold printUsageAndExit in Hrun; congruence|].
      simpl in Hlen. apply (IH rest' ltac:(lia) _ _ Hrun).
    + destruct (startsWith a (lit "--"));
        [unfold printUsageAndExit in Hrun; congruence|].
      destruct (falsy file);
        [|unfold printUsageAndExit in Hrun; congruence].
      apply (IH rest ltac:(lia) _ _ Hrun).
Qed.

(** [parseArgs] never returns an empty URL. *)
Lemma parseArgs_url (argv : list jsstring) (file url : option jsstring) :
  parseArgs argv = Returned (file, url) -> falsy url = true -> url = None.
Proof.
  intros Hrun Hf. destruct url as [u|]; [|reflexivity].
  unfold parseArgs in Hrun.
  apply (parseLoop_fromArgs (List.length (skipn 2 argv))) in Hrun; [|lia].
  destruct Hrun as [_ [Hu|(u' & pre & post & Hu & Hne & _)]]; [discriminate Hu|].
  injection Hu as ->. apply falsy_some in Hne. congruence.
Qed.

(** X7.  When the start of [main] hands over a plan, the file named on
    the command line is not empty and was found to be a regular file of
    the planned size; the name sent is the basename of its resolved
    path; the destination, from [--url] or else from [config.json], is
    not empty and parsed as a URL; and the upload URL is that URL with
    exactly one [fileName] parameter, the name sent. *)
Theorem prepare_plan (argv : list jsstring) (plan : Plan) (reads : list FsRead) :
  Cli.prepare resolve stat config parseURL serialize argv
  = (Returned plan, reads) ->
  exists file url destination u,
    parseArgs argv = Returned (Some file, url)
    /\ file <> []
    /\ filePath plan = resolve file
    /\ fileName plan = NodePath.basename (resolve file)
    /\ stat (resolve file) = Stats true (totalBytes plan)
    /\ destination <> []
    /\ (url = Some destination
        \/ (url = None /\ readDestinationFromConfig config = inr destination))
    /\ parseURL destination = Some u
    /\ uploadUrl plan = serialize (withFileName u (fileName plan))
    /\ getAll (lit "fileName")
         (searchParams (withFileName u (fileName plan))) = [fileName plan].
Proof.
  unfold Cli.prepare.
  destruct (parseArgs argv) as [[file url]|code printed] eqn:Hargs;
    [|discriminate].
  destruct (falsy file) eqn:Hfile; [discriminate|].
  destruct file as [file|]; [|discriminate Hfile].
  apply falsy_some in Hfile.
  destruct (stat (resolve file)) as [m|isFile size] eqn:Hstat; [discriminate|].
  destruct isFile; [|discriminate]. cbn [negb].
  destruct (falsy url) eqn:Hurl; cbn [negb fst snd].
  - rewrite (parseArgs_url argv _ _ Hargs Hurl) in *.
    destruct (readDestinationFromConfig config) as [m|destination] eqn:Hcfg;
      [discriminate|].
    unfold buildUploadUrl.
    destruct (parseURL destination) as [u|] eqn:Hparse; [|discriminate].
    intros H. injection H as <- _.
    exists file, None, destination, u. cbn [filePath fileName totalBytes uploadUrl].
    destruct (config_destination config) as [_ Hshape].
    destruct (Hshape destination Hcfg) as (Hne & _).
    repeat split; auto.
    unfold withFileName. cbn [searchParams].
    rewrite setParam_getAll, str_eqb_refl. reflexivity.
  - destruct url as [destination|]; [|discriminate Hurl].
    apply falsy_some in Hurl.
    unfold buildUploadUrl.
    destruct (parseURL destination) as [u|] eqn:Hparse; [|discriminate].
    intros H. injection H as <- _.
    exists file, (Some destination), destination, u.
    cbn [filePath fileName totalBytes uploadUrl].
    repeat split; auto.
    unfold withFileName. cbn [searchParams].
    rewrite setParam_getAll, str_eqb_refl. reflexivity.
Qed.

Ltac split_prepare H :=
  unfold Cli.prepare, printUsageAndExit in H; cbv zeta in H;
  repeat match type of H with
         | context [match ?x with _ => _ end] => destruct x eqn:?
         end;
  cbn [fst snd negb] in *.

Lemma prepare_code
    (argv : list jsstring) (code : Z) (printed : list jsstring)
    (reads : list FsRead) :
  Cli.prepare resolve stat config parseURL serialize argv
  = (Exited code printed, reads) ->
  code = 1%Z.
Proof.
  intros H. split_prepare H; try congruence.
  injection H as <- _ _.
  match goal with
  | Hargs : parseArgs argv = Exited _ _ |- _ => apply (parseArgs_code _ _ _ Hargs)
  end.
Qed.

(** X8.  The start of [main] stats at most one path, the resolved file,
    and does so first; it reads [config.json] only when no [--url] was
    given and the file is a regular file; and every failure ends the
    process with status 1. *)
Theorem prepare_reads_and_exit_status
    (argv : list jsstring) (r : Run Plan) (reads : list FsRead) :
  Cli.prepare resolve stat config parseURL serialize argv = (r, reads) ->
  (forall code printed, r = Exited code printed -> code = 1%Z)
  /\ (reads = []
      \/ exists file url,
           parseArgs argv = Returned (Some file, url)
           /\ (reads = [StatPath (resolve file)]
               \/ (reads = [StatPath (resolve file); ReadConfig]
                   /\ url = None
                   /\ exists size, stat (resolve file) = Stats true size))).
Proof.
  intros H. split.
  - intros code printed ->. apply (prepare_code argv code printed reads H).
  - destruct (parseArgs argv) as [[file url]|code printed] eqn:Hargs.
    + unfold Cli.prepare in H. rewrite Hargs in H. cbv zeta in H.
      destruct (falsy file) eqn:Hfile;
        [injection H as _ <-; left; reflexivity|].
      destruct file as [file|]; [|discriminate Hfile].
      right. exists file, url. split; [reflexivity|].
      destruct (stat (resolve file)) as [m|isFile size] eqn:Hstat;
        [injection H as _ <-; left; reflexivity|].
      destruct isFile; cbn [negb] in H;
        [|injection H as _ <-; left; reflexivity].
      destruct (falsy url) eqn:Hurl; cbn [negb fst snd] in H.
      * right. rewrite (parseArgs_url argv _ _ Hargs Hurl).
        assert (Hr : reads = [StatPath (resolve file); ReadConfig]).
        { repeat match type of H with
                 | context [match ?x with _ => _ end] => destruct x
                 end; injection H as _ <-; reflexivity. }
        split; [exact Hr|]. split; [reflexivity|]. exists size. reflexivity.
      * left.
        repeat match type of H with
               | context [match ?x with _ => _ end] => destruct x
               end; injection H as _ <-; reflexivity.
    + unfold Cli.prepare in H. rewrite Hargs in H.
      injection H as _ <-. left. reflexivity.
Qed.

End Main.

Lemma prepare_plan_witness :
  exists plan reads file,
    Cli.prepare (fun p => p) (fun _ => Stats true 10) (ReadFailed [])
      (fun _ => Some sampleURL) beforeQuery
      [node; script; lit "dir/a.bin"; lit "--url"; lit "http://h/upload"]
    = (Returned plan, reads)
    /\ fileName plan = NodePath.basename file
    /\ getAll (lit "fileName")
         (searchParams (withFileName sampleURL (fileName plan)))
       = [fileName plan].
Proof.
  eexists. eexists.
  assert (H : Cli.prepare (fun p => p) (fun _ => Stats true 10) (ReadFailed [])
                (fun _ => Some sampleURL) beforeQuery
                [node; script; lit "dir/a.bin"; lit "--url"; lit "http://h/upload"]
              = (Returned (mkPlan (lit "dir/a.bin") (lit "a.bin") 10
                             (lit "http://h/upload")),
                 [StatPath (lit "dir/a.bin")])) by reflexivity.
  destruct (prepare_plan _ _ _ _ _ _ _ _ H)
    as (file & url & destination & u & _ & _ & _ & Hname & _ & _ & _ & Hu & _ & Hone).
  exists file. split; [exact H|]. split; [exact Hname|].
  injection Hu as <-. exact Hone.
Defined.

Lemma prepare_reads_and_exit_status_witness :
  exists r reads,
    Cli.prepare (fun p => p) (fun _ => StatFailed (lit "ENOENT")) (ReadFailed [])
      (fun _ => None) beforeQuery [node; script; lit "a.bin"] = (r, reads)
    /\ forall code printed, r = Exited code printed -> code = 1%Z.
Proof.
  set (res := Cli.prepare (fun p => p) (fun _ => StatFailed (lit "ENOENT"))
                (ReadFailed []) (fun _ => None) beforeQuery
                [node; script; lit "a.bin"]).
  exists (fst res), (snd res). split; [apply surjective_pairing|].
  apply (prepare_reads_and_exit_status _ _ _ _ _ _ (fst res) (snd res)
           (surjective_pairing res)).
Defined.

End ConfigFacts.

(** ** What [path.basename] picks *)

Module SegmentFacts.
Import NodePath Server Notions BasenameFacts ServerFacts TrimFacts.

Local Open Scope Z_scope.

Lemma nth_middle_unit (pre suf : jsstring) (c : N) :
  nth (List.length pre) (pre ++ c :: suf) 0%N = c.
Proof.
  rewrite app_nth2 by lia. now rewrite Nat.sub_diag.
Qed.

Lemma slashes_snoc (k : nat) :
  List.repeat CHAR_FORWARD_SLASH (S k)
  = List.repeat CHAR_FORWARD_SLASH k ++ [CHAR_FORWARD_SLASH].
Proof. cbn [List.repeat]. apply repeat_cons. Qed.

(** Trailing slashes are passed over. *)
Lemma scan_trailing_slashes (x suf : jsstring) (k : nat) :
  basename_scan (x ++ List.repeat CHAR_FORWARD_SLASH k ++ suf)
    (List.length x + k) 0 (-1) true
  = basename_scan (x ++ List.repeat CHAR_FORWARD_SLASH k ++ suf)
      (List.length x) 0 (-1) true.
Proof.
  revert suf. induction k as [|k IH]; intros suf.
  - now rewrite Nat.add_0_r.
  - rewrite slashes_snoc, <- !app_assoc. cbn [app].
    replace (List.length x + S k)%nat with (S (List.length x + k)) by lia.
    cbn [basename_scan].
    replace (nth (List.length x + k)
               (x ++ List.repeat CHAR_FORWARD_SLASH k ++ CHAR_FORWARD_SLASH :: suf)
               0%N) with CHAR_FORWARD_SLASH.
    + rewrite N.eqb_refl. cbn [negb]. apply IH.
    + rewrite app_assoc.
      replace (List.length x + k)%nat
        with (List.length (x ++ List.repeat CHAR_FORWARD_SLASH k))
        by (rewrite length_app, repeat_length; reflexivity).
      now rewrite nth_middle_unit.
Qed.

(** Once the end of the segment is marked, units that are not slashes
    are passed over. *)
Lemma scan_segment_units (y suf : jsstring) (e : Z) (name : jsstring) :
  e <> -1 ->
  Forall (fun c => c <> CHAR_FORWARD_SLASH) name ->
  basename_scan (y ++ name ++ suf) (List.length y + List.length name) 0 e false
  = basename_scan (y ++ name ++ suf) (List.length y) 0 e false.
Proof.
  intros He. revert suf.
  induction name as [|c name IH] using rev_ind; intros suf Hname.
  - now rewrite Nat.add_0_r.
  - apply Forall_app in Hname. destruct Hname as [Hname Hc].
    inversion Hc as [|? ? Hc' _]; subst.
    rewrite <- !app_assoc. cbn [app]. rewrite length_app. cbn [List.length].
    replace (List.length y + (List.length name + 1))%nat
      with (S (List.length y + List.length name)) by lia.
    cbn [basename_scan].
    replace (nth (List.length y + List.length name) (y ++ name ++ c :: suf) 0%N)
      with c.
    + rewrite (proj2 (N.eqb_neq c CHAR_FORWARD_SLASH) Hc').
      rewrite (proj2 (Z.eqb_neq e (-1)) He). apply IH, Hname.
    + rewrite app_assoc.
      replace (List.length y + List.length name)%nat
        with (List.length (y ++ name)) by (rewrite length_app; reflexivity).
      now rewrite nth_middle_unit.
Qed.

Lemma slice_middle (y name suf : jsstring) :
  slice (y ++ name ++ suf) (len y) (len y + len name) = name.
Proof.
  unfold slice. pose proof (len_nonneg y). pose proof (len_nonneg name).
  pose proof (len_nonneg suf).
  destruct (Z.ltb_spec (len y) 0); [lia|].
  destruct (Z.ltb_spec (len y + len name) 0); [lia|].
  rewrite !len_app.
  replace (Z.min (len y) (len y + (len name + len suf))) with (len y) by lia.
  replace (Z.min (len y + len name) (len y + (len name + len suf)))
    with (len y + len name) by lia.
  replace (len y + len name - len y) with (len name) by lia.
  unfold len. rewrite !Nat2Z.id.
  rewrite skipn_app, skipn_all, Nat.sub_diag. cbn [app skipn].
  rewrite firstn_app, firstn_all, Nat.sub_diag. cbn [firstn].
  apply app_nil_r.
Qed.

(** The scan on a path whose last segment is [name], behind [y] and
    before [k] slashes; [y] is empty or ends in a slash. *)
Lemma basename_of_parts (y name : jsstring) (k : nat) :
  name <> [] ->
  Forall (fun c => c <> CHAR_FORWARD_SLASH) name ->
  (y = [] \/ exists d, y = d ++ [CHAR_FORWARD_SLASH]) ->
  basename (y ++ name ++ List.repeat CHAR_FORWARD_SLASH k) = name.
Proof.
  intros Hne Hname Hy. unfold basename.
  set (path := y ++ name ++ List.repeat CHAR_FORWARD_SLASH k).
  assert (Hlen : List.length path
                 = (List.length (y ++ name) + k)%nat).
  { unfold path. rewrite !length_app, repeat_length. lia. }
  rewrite Hlen.
  assert (Hpath : path = (y ++ name) ++ List.repeat CHAR_FORWARD_SLASH k ++ [])
    by (unfold path; rewrite app_nil_r, app_assoc; reflexivity).
  rewrite Hpath at 1.
  rewrite (scan_trailing_slashes (y ++ name) [] k).
  rewrite <- Hpath.
  destruct (exists_last Hne) as (name' & c & Ename).
  assert (Hc : c <> CHAR_FORWARD_SLASH).
  { rewrite Ename in Hname. apply Forall_app in Hname.
    destruct Hname as [_ Hc]. inversion Hc; assumption. }
  assert (Hname' : Forall (fun c => c <> CHAR_FORWARD_SLASH) name').
  { rewrite Ename in Hname. apply Forall_app in Hname. apply Hname. }
  assert (Hl : List.length (y ++ name) = S (List.length y + List.length name')).
  { rewrite Ename, !length_app. cbn [List.length]. lia. }
  rewrite Hl. cbn [basename_scan].
  assert (Hnth : nth (List.length y + List.length name') path 0%N = c).
  { unfold path. rewrite Ename, <- !app_assoc, app_assoc. cbn [app].
    replace (List.length y + List.length name')%nat
      with (List.length (y ++ name')) by (rewrite length_app; reflexivity).
    apply nth_middle_unit. }
  rewrite Hnth, (proj2 (N.eqb_neq c CHAR_FORWARD_SLASH) Hc), Z.eqb_refl.
  set (e := Z.of_nat (List.length y + List.length name') + 1).
  assert (He : e <> -1) by (unfold e; lia).
  assert (Hpath' : path = y ++ name'
                            ++ (c :: List.repeat CHAR_FORWARD_SLASH k)).
  { unfold path. rewrite Ename, <- !app_assoc. reflexivity. }
  rewrite Hpath' at 1.
  rewrite (scan_segment_units y _ e name' He Hname'). rewrite <- Hpath'.
  assert (Hend : e = len y + len name).
  { unfold e, len. rewrite Ename, length_app. cbn [List.length]. lia. }
  destruct Hy as [->|(d & ->)].
  - cbn [List.length basename_scan].
    rewrite (proj2 (Z.eqb_neq e (-1)) He), Hend.
    apply (slice_middle [] name).
  - rewrite length_app. cbn [List.length].
    replace (List.length d + 1)%nat with (S (List.length d)) by lia.
    cbn [basename_scan].
    assert (Hslash : nth (List.length d) path 0%N = CHAR_FORWARD_SLASH).
    { unfold path. rewrite <- !app_assoc. apply nth_middle_unit. }
    rewrite Hslash, N.eqb_refl. cbn [negb].
    rewrite (proj2 (Z.eqb_neq e (-1)) He), Hend.
    replace (Z.of_nat (List.length d) + 1) with (len (d ++ [CHAR_FORWARD_SLASH]))
      by (unfold len; rewrite length_app; cbn [List.length]; lia).
    apply slice_middle.
Qed.

Lemma basename_of_slashes (k : nat) :
  basename (List.repeat CHAR_FORWARD_SLASH k) = [].
Proof.
  unfold basename. rewrite repeat_length.
  pose proof (scan_trailing_slashes [] [] k) as H.
  cbn [app List.length Nat.add] in H. rewrite app_nil_r in H. rewrite H.
  reflexivity.
Qed.

(** X9.  [path.basename] returns the last segment of the path: with
    [name] free of slashes and not empty, the basename of
    [dir/name], of [name] alone, and of either followed by any number of
    slashes, is [name]; and a path made of slashes only, or empty, has an
    empty basename. *)
Theorem basename_is_last_segment (dir name : jsstring) (k : nat) :
  (name <> [] ->
   Forall (fun c => c <> CHAR_FORWARD_SLASH) name ->
   basename (dir ++ [CHAR_FORWARD_SLASH] ++ name
             ++ List.repeat CHAR_FORWARD_SLASH k) = name
   /\ basename (name ++ List.repeat CHAR_FORWARD_SLASH k) = name)
  /\ basename (List.repeat CHAR_FORWARD_SLASH k) = [].
Proof.
  split; [|apply basename_of_slashes].
  intros Hne Hname. split.
  - rewrite app_assoc. apply basename_of_parts; auto.
    right. exists dir. reflexivity.
  - apply (basename_of_parts [] name k); auto.
Qed.

Lemma basename_is_last_segment_witness :
  basename (lit "/home/u" ++ [CHAR_FORWARD_SLASH] ++ lit "a.bin"
            ++ List.repeat CHAR_FORWARD_SLASH 2) = lit "a.bin".
Proof.
  apply (proj1 (basename_is_last_segment (lit "/home/u") (lit "a.bin") 2)).
  - discriminate.
  - repeat constructor; discriminate.
Defined.

Lemma no_slash_Forall (s : jsstring) :
  ~ In CHAR_FORWARD_SLASH s -> Forall (fun c => c <> CHAR_FORWARD_SLASH) s.
Proof.
  intros H. apply Forall_forall. intros c Hin ->. contradiction.
Qed.

Lemma basename_fixed (name : jsstring) :
  ~ In CHAR_FORWARD_SLASH name -> basename name = name.
Proof.
  intros H. destruct name as [|c r]; [reflexivity|].
  pose proof (basename_of_parts [] (c :: r) 0) as E.
  cbn [app List.repeat] in E. rewrite app_nil_r in E.
  apply E; [discriminate|apply no_slash_Forall, H|left; reflexivity].
Qed.

(** X10.  Sanitizing is idempotent, and a name the client derives with
    [path.basename] that has no white space around it passes the receive
    handler unchanged: the file is written under exactly that name. *)
Theorem client_name_is_kept
    (outputDir filePath : jsstring) (dirExists : bool) :
  basename (basename filePath) = basename filePath
  /\ (basename filePath <> [] ->
      trim (basename filePath) = basename filePath ->
      upload outputDir (QString (basename filePath)) dirExists
      = (Piping (basename filePath),
         ensureOutputDir outputDir dirExists
         ++ [CreateWriteStream outputDir (basename filePath)])).
Proof.
  assert (Hidem : basename (basename filePath) = basename filePath)
    by apply basename_fixed, basename_no_slash.
  split; [exact Hidem|].
  intros Hne Htrim.
  assert (Ht : trim (basename filePath) <> []) by (rewrite Htrim; exact Hne).
  rewrite (upload_string outputDir _ dirExists Ht).
  unfold safeBasename. rewrite Htrim, Hidem.
  apply nonEmpty_true_iff in Hne. now rewrite Hne.
Qed.

Lemma client_name_is_kept_witness :
  upload (lit "/srv/output") (QString (lit "a.bin")) true
  = (Piping (lit "a.bin"), [CreateWriteStream (lit "/srv/output") (lit "a.bin")]).
Proof.
  apply (proj2 (client_name_is_kept (lit "/srv/output") (lit "/home/u/a.bin") true)).
  - vm_compute. discriminate.
  - reflexivity.
Defined.

End SegmentFacts.

(** ** The receiving stream *)

Module ReceiveFacts.
Import Server Client Cli Receive Notions MoreNotions LoopFacts ServerFacts.

Local Open Scope Z_scope.

Section Handler.

Variable name : jsstring.

Lemma fold_on_app (a b : list StreamEvent) (tr : Transfer) :
  fold_left (fun tr e => on name e tr) (a ++ b) tr
  = fold_left (fun tr e => on name e tr) b
      (fold_left (fun tr e => on name e tr) a tr).
Proof. apply fold_left_app. Qed.

(** Data alone is counted and handed on, nothing else. *)
Lemma fold_on_data (chunks : list Buffer) (tr : Transfer) :
  fold_left (fun tr e => on name e tr) (List.map ReqData chunks) tr
  = mkTransfer (wroteBytes tr + totalLength chunks) (piped tr ++ chunks)
      (sent tr) (outDestroyed tr) (reqDestroyed tr) (logged tr).
Proof.
  revert tr. induction chunks as [|c r IH]; intros tr.
  - simpl. rewrite Z.add_0_r, app_nil_r. destruct tr; reflexivity.
  - cbn [List.map fold_left]. rewrite IH. cbn [on wroteBytes piped sent
      outDestroyed reqDestroyed logged].
    change (totalLength (c :: r)) with (byteLength c + totalLength r).
    rewrite <- app_assoc. cbn [app]. f_equal. lia.
Qed.

(** After a reply, events other than [OutFinish] send nothing more. *)
Lemma fold_on_replied (evs : list StreamEvent) :
  forall tr,
    headersSent tr = true ->
    Forall notFinish evs ->
    sent (fold_left (fun tr e => on name e tr) evs tr) = sent tr.
Proof.
  induction evs as [|e evs IH]; intros tr Hsent Hall; [reflexivity|].
  inversion Hall as [|? ? He Hrest]; subst. cbn [fold_left].
  assert (Hstep : sent (on name e tr) = sent tr).
  { destruct e; cbn [on sent]; try rewrite Hsent; try reflexivity.
    contradiction. }
  rewrite IH; [exact Hstep| |exact Hrest].
  unfold headersSent. rewrite Hstep. exact Hsent.
Qed.

Lemma fold_on_errors (evs : list StreamEvent) :
  forall tr,
    headersSent tr = false ->
    Forall notFinish evs ->
    sent (fold_left (fun tr e => on name e tr) evs tr)
    = sent tr ++ firstErrorReply evs.
Proof.
  induction evs as [|e evs IH]; intros tr Hsent Hall.
  - simpl. now rewrite app_nil_r.
  - inversion Hall as [|? ? He Hrest]; subst. cbn [fold_left].
    destruct e; cbn [firstErrorReply]; try contradiction.
    + rewrite IH; [reflexivity|exact Hsent|exact Hrest].
    + rewrite fold_on_replied; [|
        unfold headersSent; cbn [on sent]; rewrite Hsent; cbn [negb];
        destruct (sent tr); reflexivity | exact Hrest].
      cbn [on sent]. now rewrite Hsent.
    + rewrite fold_on_replied; [|
        unfold headersSent; cbn [on sent]; rewrite Hsent; cbn [negb];
        destruct (sent tr); reflexivity | exact Hrest].
      cbn [on sent]. now rewrite Hsent.
Qed.

Lemma fold_on_counts (evs : list StreamEvent) :
  forall tr,
    wroteBytes (fold_left (fun tr e => on name e tr) evs tr)
    = wroteBytes tr + totalLength (dataOf evs).
Proof.
  induction evs as [|e evs IH]; intros tr; [simpl; lia|].
  cbn [fold_left]. rewrite IH.
  destruct e; cbn [on wroteBytes dataOf flat_map app]; fold (dataOf evs);
    try lia.
  change (totalLength (chunk :: dataOf evs))
    with (byteLength chunk + totalLength (dataOf evs)). lia.
Qed.

End Handler.

(** X11.  A request with a valid [fileName] whose body arrives as any
    chunks and whose write stream then finishes is answered once, with
    status 200 and a report naming the sanitized file name, the total
    number of body bytes and [output/<name>]; the chunks went to the
    write stream in order and nothing was logged. *)
Theorem finished_upload_report
    (outputDir s : jsstring) (dirExists : bool) (chunks : list Buffer) :
  NodePath.basename (trim s) <> [] ->
  let name := NodePath.basename (trim s) in
  serve outputDir (QString s) dirExists (List.map ReqData chunks ++ [OutFinish])
  = ([SendJson 200
        (mkSummary true name (totalLength chunks) (lit "output/" ++ name))],
     ensureOutputDir outputDir dirExists ++ [CreateWriteStream outputDir name])
  /\ receive name (List.map ReqData chunks ++ [OutFinish])
     = mkTransfer (totalLength chunks) chunks
         [SendJson 200
            (mkSummary true name (totalLength chunks) (lit "output/" ++ name))]
         false false [].
Proof.
  intros Hne name.
  assert (Hrecv : receive name (List.map ReqData chunks ++ [OutFinish])
                  = mkTransfer (totalLength chunks) chunks
                      [SendJson 200
                         (mkSummary true name (totalLength chunks)
                            (lit "output/" ++ name))]
                      false false []).
  { unfold receive. rewrite fold_on_app, fold_on_data. reflexivity. }
  split; [|exact Hrecv].
  unfold serve.
  assert (Ht : trim s <> []).
  { intros E. apply Hne. rewrite E. reflexivity. }
  rewrite (upload_string outputDir s dirExists Ht).
  unfold safeBasename. fold name.
  apply nonEmpty_true_iff in Hne. fold name in Hne. rewrite Hne.
  rewrite Hrecv. reflexivity.
Qed.

Lemma finished_upload_report_witness :
  fst (serve (lit "/srv/output") (QString (lit "d/a.bin")) true
         (List.map ReqData [fiveBytes; fiveBytes] ++ [OutFinish]))
  = [SendJson 200 (mkSummary true (lit "a.bin") 10 (lit "output/a.bin"))].
Proof.
  assert (Hne : NodePath.basename (trim (lit "d/a.bin")) <> [])
    by (vm_compute; discriminate).
  destruct (finished_upload_report (lit "/srv/output") (lit "d/a.bin") true
              [fiveBytes; fiveBytes] Hne) as [Hserve _].
  rewrite Hserve. reflexivity.
Defined.

(** X12.  As long as the write stream has not finished, the handler
    sends at most one response: none while no stream error has occurred,
    and otherwise the status-500 reply to the first error, later errors
    being logged only; and [wroteBytes] counts every chunk of the request,
    whatever happened to the write stream. *)
Theorem stream_errors_reply_once (name : jsstring) (evs : list StreamEvent) :
  Forall notFinish evs ->
  sent (receive name evs) = firstErrorReply evs
  /\ (List.length (sent (receive name evs)) <= 1)%nat
  /\ Forall (fun r => statusOf r = 500) (sent (receive name evs))
  /\ wroteBytes (receive name evs) = totalLength (dataOf evs).
Proof.
  intros Hall.
  assert (Hsent : sent (receive name evs) = firstErrorReply evs).
  { unfold receive. rewrite fold_on_errors; [reflexivity|reflexivity|exact Hall]. }
  rewrite Hsent. split; [reflexivity|].
  split; [|split].
  - clear. induction evs as [|[c| | |] evs IH]; simpl; auto.
  - clear. induction evs as [|[c| | |] evs IH]; simpl; auto.
  - unfold receive. rewrite fold_on_counts. reflexivity.
Qed.

Lemma stream_errors_reply_once_witness :
  sent (receive (lit "a.bin") [ReqData fiveBytes; OutError; ReqError])
  = [SendText 500 (lit "File write error")].
Proof.
  apply (stream_errors_reply_once (lit "a.bin")
           [ReqData fiveBytes; OutError; ReqError]).
  repeat constructor.
Defined.

(** X13.  Whatever a request brings, each response of the endpoint has
    status 200, 400 or 500, and the client's [validateStatus] accepts it
    exactly when it is the report sent on finish: a rejected name and a
    stream error always count as a failed upload. *)
Theorem client_accepts_only_reports
    (outputDir : jsstring) (rawName : QueryValue) (dirExists : bool)
    (evs : list StreamEvent) (r : Response) :
  In r (fst (serve outputDir rawName dirExists evs)) ->
  (statusOf r = 200 \/ statusOf r = 400 \/ statusOf r = 500)
  /\ (validateStatus (statusOf r) = true <-> exists body, r = SendJson 200 body).
Proof.
  assert (Hsent : forall name evs' tr,
             (forall r', In r' (sent tr) ->
                (exists body, r' = SendJson 200 body)
                \/ (exists text, r' = SendText 500 text)) ->
             forall r', In r' (sent (fold_left (fun tr e => on name e tr) evs' tr)) ->
                (exists body, r' = SendJson 200 body)
                \/ (exists text, r' = SendText 500 text)).
  { intros name evs'. induction evs' as [|e evs' IH]; intros tr Htr r' Hin;
      [apply Htr, Hin|].
    cbn [fold_left] in Hin. apply IH in Hin; [exact Hin|].
    intros r0 H0. destruct e; cbn [on sent] in H0.
    - apply Htr, H0.
    - destruct (headersSent tr); cbn [negb] in H0; [apply Htr, H0|].
      apply in_app_or in H0. destruct H0 as [H0|[<-|[]]]; [apply Htr, H0|].
      right. eexists. reflexivity.
    - destruct (headersSent tr); cbn [negb] in H0; [apply Htr, H0|].
      apply in_app_or in H0. destruct H0 as [H0|[<-|[]]]; [apply Htr, H0|].
      right. eexists. reflexivity.
    - apply in_app_or in H0. destruct H0 as [H0|[<-|[]]]; [apply Htr, H0|].
      left. eexists. reflexivity. }
  unfold serve. intros Hin.
  assert (Hr : (exists body, r = SendJson 200 body)
               \/ (exists text, r = SendText 500 text)
               \/ (exists text, r = SendText 400 text)).
  { destruct (upload outputDir rawName dirExists) as [[status body|name] calls] eqn:E.
    - destruct Hin as [<-|[]]. right. right. exists body.
      unfold upload in E.
      destruct (negb (truthy rawName) || negb (isString rawName)
                || negb (nonEmpty (trim (asString rawName))));
        [injection E as <- <- _; reflexivity|].
      destruct (negb (nonEmpty (safeBasename (trim (asString rawName)))));
        [injection E as <- <- _; reflexivity|discriminate E].
    - cbn [fst] in Hin. unfold receive in Hin.
      apply (Hsent name evs start) in Hin; [tauto|]. intros r' []. }
  destruct Hr as [(body & ->)|[(text & ->)|(text & ->)]]; cbn [statusOf].
  - split; [auto|]. split; [intros _; eexists; reflexivity|reflexivity].
  - split; [auto|]. split; [discriminate|intros (b & H); discriminate H].
  - split; [auto|]. split; [discriminate|intros (b & H); discriminate H].
Qed.

Lemma client_accepts_only_reports_witness :
  validateStatus
    (statusOf (SendText 400 (Server.msgMissing))) = false.
Proof.
  destruct (client_accepts_only_reports (lit "/srv/output") QUndefined true []
              (SendText 400 Server.msgMissing)) as [_ Hiff].
  - left. reflexivity.
  - destruct (validateStatus (statusOf (SendText 400 Server.msgMissing))) eqn:E;
      [|reflexivity].
    destruct (proj1 Hiff eq_refl) as (b & H). discriminate H.
Defined.

End ReceiveFacts.

(** ** The bar and the written line *)

Module LineFacts.
Import Client Notions MoreNotions NumFacts BarFacts DrawFacts LoopFacts.

Local Open Scope Q_scope.

Lemma clamp01_mono (p1 p2 : Q) : p1 <= p2 -> clamp01 p1 <= clamp01 p2.
Proof.
  intros H. unfold clamp01.
  destruct (Qltb p1 0) eqn:A1; [apply Qltb_true_iff in A1|apply Qltb_false_iff in A1];
    (destruct (Qltb 1 p1) eqn:B1;
     [apply Qltb_true_iff in B1|apply Qltb_false_iff in B1]);
    (destruct (Qltb p2 0) eqn:A2;
     [apply Qltb_true_iff in A2|apply Qltb_false_iff in A2]);
    (destruct (Qltb 1 p2) eqn:B2;
     [apply Qltb_true_iff in B2|apply Qltb_false_iff in B2]);
    lra.
Qed.

Lemma Math_round_mono (x y : Q) : x <= y -> (Math_round x <= Math_round y)%Z.
Proof. intros H. unfold Math_round. apply Qfloor_resp_le. lra. Qed.

Lemma Math_round_int (w : Z) : Math_round (inject_Z w) = w.
Proof.
  destruct (Math_round_nearest (inject_Z w)) as [Hlo Hhi].
  assert (H1 : inject_Z (Math_round (inject_Z w)) < inject_Z (w + 1)).
  { rewrite inject_Z_plus. change (inject_Z 1) with 1. lra. }
  assert (H2 : inject_Z (w + -1) < inject_Z (Math_round (inject_Z w))).
  { rewrite inject_Z_plus. change (inject_Z (-1)) with (-1 # 1). lra. }
  rewrite <- Zlt_Qlt in H1, H2. lia.
Qed.

(** The filled cells of the bar drawn for a fraction. *)
Lemma makeBar_cells (p : Q) (w : Z) :
  (0 <= w)%Z ->
  exists bar,
    makeBar p w = Some bar
    /\ Z.of_nat (filledCells bar) = Math_round (clamp01 p * inject_Z w).
Proof.
  intros Hw. destruct (makeBar_value p w Hw) as [Hb Hbar].
  eexists. split; [exact Hbar|].
  unfold filledCells. rewrite (proj1 (count_barOf _ w)).
  rewrite Z2Nat.id by lia.
  unfold Math_round. apply Qfloor_comp. now rewrite (clamp_is_clamp01 p).
Qed.

Lemma progress01_mono (totalBytes u1 u2 : Z) :
  (u1 <= u2)%Z ->
  progress01 totalBytes u1 <= progress01 totalBytes u2.
Proof.
  intros H. unfold progress01.
  destruct (Z.ltb_spec 0 totalBytes) as [Ht|Ht]; [|apply Qle_refl].
  apply Qmult_le_compat_r.
  - rewrite <- Zle_Qle. exact H.
  - apply Qinv_le_0_compat. rewrite Zlt_Qlt in Ht. now apply Qlt_le_weak.
Qed.

(** X14.  At a fixed width the bar never retreats: more uploaded bytes
    never give fewer filled cells; the bar is full once the uploaded
    bytes reach the total (and always for an empty file), and empty while
    nothing of a non-empty file is uploaded. *)
Theorem bar_never_retreats (totalBytes w u1 u2 : Z) :
  (0 <= w)%Z ->
  (u1 <= u2)%Z ->
  exists bar1 bar2,
    makeBar (progress01 totalBytes u1) w = Some bar1
    /\ makeBar (progress01 totalBytes u2) w = Some bar2
    /\ (filledCells bar1 <= filledCells bar2)%nat
    /\ ((totalBytes <= u2)%Z -> Z.of_nat (filledCells bar2) = w)
    /\ ((0 < totalBytes)%Z -> (u1 <= 0)%Z -> filledCells bar1 = 0%nat).
Proof.
  intros Hw Hu.
  destruct (makeBar_cells (progress01 totalBytes u1) w Hw) as (b1 & Hb1 & Hc1).
  destruct (makeBar_cells (progress01 totalBytes u2) w Hw) as (b2 & Hb2 & Hc2).
  exists b1, b2. split; [exact Hb1|]. split; [exact Hb2|].
  assert (Hw' : 0 <= inject_Z w) by (rewrite Zle_Qle in Hw; exact Hw).
  split; [|split].
  - apply Nat2Z.inj_le. rewrite Hc1, Hc2. apply Math_round_mono.
    apply Qmult_le_compat_r; [|exact Hw'].
    apply clamp01_mono, progress01_mono, Hu.
  - intros Hfull. rewrite Hc2.
    assert (Hp : 1 <= progress01 totalBytes u2).
    { unfold progress01.
      destruct (Z.ltb_spec 0 totalBytes) as [Ht|Ht]; [|apply Qle_refl].
      apply Qle_shift_div_l; [rewrite Zlt_Qlt in Ht; exact Ht|].
      rewrite Qmult_1_l, <- Zle_Qle. exact Hfull. }
    assert (Hc : clamp01 (progress01 totalBytes u2) == 1).
    { unfold clamp01.
      destruct (Qltb (progress01 totalBytes u2) 0) eqn:A;
        [apply Qltb_true_iff in A; lra|].
      destruct (Qltb 1 (progress01 totalBytes u2)) eqn:B; [reflexivity|].
      apply Qltb_false_iff in B. lra. }
    rewrite <- (Math_round_int w) at 2.
    unfold Math_round. apply Qfloor_comp. rewrite Hc. ring.
  - intros Ht Hzero.
    assert (Hp : progress01 totalBytes u1 <= 0).
    { unfold progress01.
      destruct (Z.ltb_spec 0 totalBytes) as [_|H]; [|lia].
      apply Qle_shift_div_r; [rewrite Zlt_Qlt in Ht; exact Ht|].
      rewrite Qmult_0_l. change 0 with (inject_Z 0). rewrite <- Zle_Qle.
      exact Hzero. }
    assert (Hc : clamp01 (progress01 totalBytes u1) == 0).
    { unfold clamp01.
      destruct (Qltb (progress01 totalBytes u1) 0) eqn:A; [reflexivity|].
      apply Qltb_false_iff in A.
      destruct (Qltb 1 (progress01 totalBytes u1)) eqn:B;
        [apply Qltb_true_iff in B; lra|lra]. }
    apply Nat2Z.inj. rewrite Hc1. change (Z.of_nat 0) with (Math_round 0).
    unfold Math_round. apply Qfloor_comp. rewrite Hc. ring.
Qed.

Lemma bar_never_retreats_witness :
  exists bar1 bar2,
    makeBar (progress01 100 40) 10 = Some bar1
    /\ makeBar (progress01 100 100) 10 = Some bar2
    /\ (filledCells bar1 <= filledCells bar2)%nat
    /\ Z.of_nat (filledCells bar2) = 10%Z.
Proof.
  destruct (bar_never_retreats 100 10 40 100)
    as (b1 & b2 & H1 & H2 & Hle & Hfull & _); [lia|lia|].
  exists b1, b2. repeat split; auto. apply Hfull. lia.
Defined.

End LineFacts.

(** ** What a tick writes *)

Module TickFacts.
Import Client Notions MoreNotions NumFacts BarFacts DrawFacts LoopFacts.

Local Open Scope Z_scope.

Lemma slice_prefix (s : jsstring) (e : Z) :
  0 <= e -> slice s 0 e = firstn (Z.to_nat e) s.
Proof.
  intros He. unfold slice. pose proof (len_nonneg s) as Hs.
  destruct (Z.ltb_spec 0 0); [lia|]. destruct (Z.ltb_spec e 0); [lia|].
  replace (Z.min 0 (len s)) with 0 by lia. cbn [Z.to_nat skipn].
  rewrite Z.sub_0_r.
  destruct (Z.le_gt_cases e (len s)) as [Hle|Hgt].
  - now rewrite Z.min_l by lia.
  - rewrite Z.min_r by lia. unfold len in *.
    rewrite Nat2Z.id, firstn_all. symmetry. apply firstn_all2. lia.
Qed.

Lemma firstn_exact (a b : jsstring) :
  firstn (List.length a) (a ++ b) = a.
Proof.
  rewrite firstn_app, firstn_all, Nat.sub_diag. cbn [firstn].
  apply app_nil_r.
Qed.

(** The suffix of a tick ends with its closing bracket. *)
Lemma suffix_closes (totalBytes uploaded : Z) (ema : Q) :
  exists body, suffix totalBytes uploaded ema = body ++ lit "]".
Proof.
  unfold suffix. eexists. rewrite !app_assoc. reflexivity.
Qed.

Section Main.

Variable totalBytes : Z.

Lemma tick_draws (now : Z) (t : Terminal) (st : State) :
  tick totalBytes now t st
  = draw totalBytes t (suffixAt totalBytes now st) (sample now st).
Proof. reflexivity. Qed.

Lemma tick_output (now : Z) (t : Terminal) (st : State) :
  exists st' o,
    tick totalBytes now t st = Some st'
    /\ outputs st' = outputs st ++ [o]
    /\ statusOutput o.
Proof.
  rewrite tick_draws, draw_spec.
  destruct (sample_keeps now st) as (_ & _ & _ & Ho).
  destruct (isTTY t); eexists; eexists; (split; [reflexivity|]);
    cbn [outputs]; rewrite Ho; (split; [reflexivity|]).
  - right. eexists. reflexivity.
  - left. eexists. reflexivity.
Qed.

Lemma run_outputs (evs : list Event) :
  forall st, exists st' written,
    run totalBytes evs st = Some st'
    /\ outputs st' = outputs st ++ written
    /\ List.length written = tickCount evs
    /\ Forall statusOutput written.
Proof.
  induction evs as [|e evs IH]; intros st.
  - exists st, []. rewrite app_nil_r. repeat split. constructor.
  - destruct e as [chunk|now t]; cbn [run step tickCount].
    + destruct (IH (transform chunk st)) as (st' & w & Hrun & Ho & Hl & Hall).
      exists st', w. repeat split; auto.
    + destruct (tick_output now t st) as (st1 & o & Htick & Ho1 & Hs).
      rewrite Htick.
      destruct (IH st1) as (st' & w & Hrun & Ho & Hl & Hall).
      exists st', (o :: w). split; [exact Hrun|].
      split; [rewrite Ho, Ho1, <- app_assoc; reflexivity|].
      split; [cbn [List.length]; lia|constructor; assumption].
Qed.

End Main.

(** X15.  The event loop writes once per tick and never on data: after
    any run the output holds as many new entries as there were ticks,
    each a console line or an in-place write that starts by returning the
    carriage and clearing the line. *)
Theorem one_output_per_tick
    (totalBytes : Z) (evs : list Event) (st : State) :
  exists st' written,
    run totalBytes evs st = Some st'
    /\ outputs st' = outputs st ++ written
    /\ List.length written = tickCount evs
    /\ Forall statusOutput written.
Proof. apply run_outputs. Qed.

(** X16.  When standard output is not a terminal, a tick logs one line
    through [console.log]: the bar at its full width of 30 cells, a
    space and the whole suffix, never cut; [lastRenderedLen] stays as it
    was. *)
Theorem piped_tick_logs_whole_line
    (totalBytes now : Z) (t : Terminal) (st : State) :
  isTTY t = false ->
  let sfx := suffixAt totalBytes now st in
  exists st' bar,
    tick totalBytes now t st = Some st'
    /\ makeBar (progress01 totalBytes (uploadedBytes st)) BAR_WIDTH = Some bar
    /\ len bar = 32
    /\ outputs st' = outputs st ++ [ConsoleLog (bar ++ lit " " ++ sfx)]
    /\ lastRenderedLen st' = lastRenderedLen st.
Proof.
  intros Htty sfx.
  destruct (sample_keeps now st) as (Hu & _ & Hl & Ho).
  destruct (makeBar_value (progress01 totalBytes (uploadedBytes st)) BAR_WIDTH)
    as [Hb Hbar]; [unfold BAR_WIDTH; lia|].
  eexists. eexists. rewrite tick_draws, draw_spec, Htty.
  split; [reflexivity|]. split; [exact Hbar|].
  split; [rewrite len_barOf by exact Hb; reflexivity|].
  cbn [outputs lastRenderedLen]. rewrite Ho, Hl. split; [|reflexivity].
  unfold statusLine, barWidth. rewrite Htty, Hu. reflexivity.
Qed.

Lemma piped_tick_logs_whole_line_witness :
  exists st' bar,
    tick 5 100 pipeTerminal (init 0 pipeTerminal) = Some st'
    /\ len bar = 32
    /\ outputs st'
       = [ConsoleLog (bar ++ lit " "
                      ++ suffixAt 5 100 (init 0 pipeTerminal))].
Proof.
  destruct (piped_tick_logs_whole_line 5 100 pipeTerminal (init 0 pipeTerminal)
              eq_refl) as (st' & bar & Htick & _ & Hlen & Ho & _).
  exists st', bar. split; [exact Htick|]. split; [exact Hlen|exact Ho].
Defined.

(** X17.  On a terminal what is written of the status line is always a
    prefix of the composed line, the whole of it when it is shorter than
    the width or the width is unknown.  When the bar was shrunk to fit,
    that is when [cols - suffix.length - 3] lies between 5 and 30, the
    composed line is exactly [cols] long and is written without its last
    unit, the closing bracket of the suffix. *)
Theorem written_line_is_prefix
    (totalBytes now : Z) (t : Terminal) (st : State) :
  isTTY t = true ->
  let cols := columnsOrZero t in
  let sfx := suffixAt totalBytes now st in
  let line := statusLine totalBytes t sfx (sample now st) in
  let out := truncated cols line in
  (exists st',
      tick totalBytes now t st = Some st'
      /\ outputs st'
         = outputs st
           ++ [StdoutWrite
                 (clearLine
                  ++ (out ++ blanks (Z.max 0 (lastRenderedLen st - len out))))])
  /\ (exists rest, line = out ++ rest)
  /\ (cols <= 0 \/ len line < cols -> out = line)
  /\ (5 <= cols - len sfx - 3 <= 30 ->
      len line = cols /\ line = out ++ lit "]").
Proof.
  intros Htty cols sfx line out.
  destruct (sample_keeps now st) as (_ & _ & Hl & Ho).
  split; [|split; [|split]].
  - eexists. rewrite tick_draws, draw_spec, Htty. split; [reflexivity|].
    cbn [outputs]. rewrite Ho, Hl. reflexivity.
  - unfold out, truncated.
    destruct ((0 <? cols) && (cols - 1 <? len line)) eqn:E;
      [|exists []; now rewrite app_nil_r].
    apply andb_true_iff in E. destruct E as [E1 _]. apply Z.ltb_lt in E1.
    rewrite slice_prefix by lia.
    exists (skipn (Z.to_nat (cols - 1)) line).
    symmetry. apply firstn_skipn.
  - intros H. unfold out, truncated.
    destruct (Z.ltb_spec 0 cols) as [Hc|Hc]; [|reflexivity].
    destruct (Z.ltb_spec (cols - 1) (len line)) as [Hlong|_]; [lia|reflexivity].
  - intros Hfit.
    assert (Hw : barWidth t (len sfx) = cols - len sfx - 3).
    { unfold barWidth, BAR_WIDTH. rewrite Htty. fold cols.
      pose proof (len_nonneg sfx).
      destruct (Z.ltb_spec 0 cols) as [_|Hc]; lia. }
    assert (Hlen : len line = cols).
    { unfold line. rewrite len_statusLine, Hw. lia. }
    split; [exact Hlen|].
    destruct (suffix_closes totalBytes (uploadedBytes (sample now st))
                (emaBytesPerSec (sample now st))) as (body & Hbody).
    fold (suffixAt totalBytes now st) in Hbody. fold sfx in Hbody.
    assert (Hline : exists shown, line = shown ++ lit "]").
    { unfold line, statusLine. rewrite Hbody.
      eexists. rewrite !app_assoc. reflexivity. }
    destruct Hline as (shown & Hline).
    assert (Hshown : len shown = cols - 1).
    { rewrite Hline, len_app in Hlen. change (len (lit "]")) with 1 in Hlen.
      lia. }
    pose proof (len_nonneg shown) as Hs0.
    unfold out, truncated.
    destruct (Z.ltb_spec 0 cols) as [_|Hc]; [|lia].
    destruct (Z.ltb_spec (cols - 1) (len line)) as [_|Hshort]; [|lia].
    cbn [andb]. rewrite slice_prefix by lia.
    rewrite Hline at 2. rewrite <- Hshown. unfold len. rewrite Nat2Z.id.
    now rewrite firstn_exact.
Qed.

Lemma written_line_is_prefix_witness :
  len (statusLine 5 (mkTerminal true (Some 120))
         (suffixAt 5 100 (init 0 pipeTerminal))
         (sample 100 (init 0 pipeTerminal))) = 120.
Proof.
  assert (Htty : isTTY (mkTerminal true (Some 120)) = true) by reflexivity.
  destruct (written_line_is_prefix 5 100 (mkTerminal true (Some 120))
              (init 0 pipeTerminal) Htty) as (_ & _ & _ & Hfit).
  apply Hfit. vm_compute. split; discriminate.
Defined.

End TickFacts.

(** ** Durations read back *)

Module DurationFacts.
Import Client Notions MoreNotions NumFacts HMSFacts.

Local Open Scope Z_scope.

(** How a finite, non-negative duration is rendered. *)
Lemma formatHMS_parts (q : Q) :
  (0 <= q)%Q ->
  let s := Qfloor q in
  let h := s / 3600 in
  let m := s mod 3600 / 60 in
  let sec := s mod 60 in
  formatHMS (Fin q)
  = padStart (String_int h) 2 zeroChar
    ++ colon ++ [digitUnit (m / 10); digitUnit (m mod 10)]
    ++ colon ++ [digitUnit (sec / 10); digitUnit (sec mod 10)]
  /\ s = h * 3600 + m * 60 + sec
  /\ 0 <= h /\ 0 <= m < 60 /\ 0 <= sec < 60.
Proof.
  intros Hq s h m sec.
  pose proof (Qfloor_nonneg q Hq) as Hs. fold s in Hs.
  assert (Hh : 0 <= h) by (apply Z.div_pos; lia).
  assert (Hr : 0 <= s mod 3600 < 3600) by (apply Z.mod_pos_bound; lia).
  assert (Hm : 0 <= m < 60).
  { split; [apply Z.div_pos; lia|apply Z.div_lt_upper_bound; lia]. }
  assert (Hsec : 0 <= sec < 60) by (apply Z.mod_pos_bound; lia).
  split; [|split; [|auto]].
  - unfold formatHMS. cbn [isFinite negb orb ltZero finitePart].
    rewrite (proj2 (Qltb_false_iff q 0) Hq). fold s.
    rewrite !Z.rem_mod_nonneg by lia. fold h m sec.
    rewrite (pad2_small m) by lia. rewrite (pad2_small sec) by lia.
    reflexivity.
  - unfold h, m, sec.
    pose proof (Z.div_mod s 3600 ltac:(lia)) as E1.
    pose proof (Z.div_mod (s mod 3600) 60 ltac:(lia)) as E2.
    assert (E3 : (s mod 3600) mod 60 = s mod 60).
    { symmetry. rewrite E1 at 1.
      replace (3600 * (s / 3600) + s mod 3600)
        with (s mod 3600 + (60 * (s / 3600)) * 60) by ring.
      apply Z.mod_add. lia. }
    lia.
Qed.

Lemma digit_not_colon (c : N) : isDigit c -> N.eqb c COLON = false.
Proof. unfold isDigit, COLON. intros H. apply N.eqb_neq. lia. Qed.

Lemma splitColon_digits (d : jsstring) :
  Forall isDigit d ->
  forall rest cur, splitColon (d ++ rest) cur = splitColon rest (cur ++ d).
Proof.
  induction 1 as [|c d Hc Hd IH]; intros rest cur.
  - now rewrite app_nil_r.
  - cbn [app splitColon]. rewrite (digit_not_colon c Hc), IH, <- app_assoc.
    reflexivity.
Qed.

Lemma splitColon_colon (r cur : jsstring) :
  splitColon (COLON :: r) cur = cur :: splitColon r [].
Proof. cbn [splitColon]. now rewrite N.eqb_refl. Qed.

Lemma splitColon_three (a b c : jsstring) :
  Forall isDigit a -> Forall isDigit b -> Forall isDigit c ->
  splitColon (a ++ COLON :: b ++ COLON :: c) [] = [a; b; c].
Proof.
  intros Ha Hb Hc.
  rewrite (splitColon_digits a Ha), splitColon_colon.
  rewrite (splitColon_digits b Hb), splitColon_colon.
  rewrite <- (app_nil_r c) at 1. rewrite (splitColon_digits c Hc).
  reflexivity.
Qed.

Lemma two_digits (n : Z) :
  0 <= n < 100 ->
  Forall isDigit [digitUnit (n / 10); digitUnit (n mod 10)]
  /\ decimalValue [digitUnit (n / 10); digitUnit (n mod 10)] = n.
Proof.
  intros Hn.
  assert (Hq : 0 <= n / 10 < 10).
  { split; [apply Z.div_pos; lia|apply Z.div_lt_upper_bound; lia]. }
  pose proof (Z.mod_pos_bound n 10 ltac:(lia)) as Hr.
  split.
  - repeat constructor; unfold digitUnit; lia.
  - unfold decimalValue, digitUnit. cbn [fold_left].
    rewrite !Z2N.id by lia. pose proof (Z.div_mod n 10 ltac:(lia)). lia.
Qed.

Lemma readHMS_formatHMS (q : Q) :
  (0 <= q)%Q -> readHMS (formatHMS (Fin q)) = Some (Qfloor q).
Proof.
  intros Hq. destruct (formatHMS_parts q Hq) as (-> & Hsum & Hh & Hm & Hsec).
  set (s := Qfloor q) in *. set (h := s / 3600) in *.
  set (m := s mod 3600 / 60) in *. set (sec := s mod 60) in *.
  destruct (String_int_spec h Hh) as (Hne & Hdig & Hval).
  destruct (padStart_digits (String_int h) Hne Hdig) as (Hpd & _ & Hpv).
  destruct (two_digits m ltac:(lia)) as [Hmd Hmv].
  destruct (two_digits sec ltac:(lia)) as [Hsd Hsv].
  unfold readHMS.
  change (padStart (String_int h) 2 zeroChar ++ colon
          ++ [digitUnit (m / 10); digitUnit (m mod 10)] ++ colon
          ++ [digitUnit (sec / 10); digitUnit (sec mod 10)])
    with (padStart (String_int h) 2 zeroChar
          ++ COLON :: [digitUnit (m / 10); digitUnit (m mod 10)]
          ++ COLON :: [digitUnit (sec / 10); digitUnit (sec mod 10)]).
  rewrite (splitColon_three _ _ _ Hpd Hmd Hsd).
  rewrite Hpv, Hval, Hmv, Hsv. f_equal. lia.
Qed.

(** Only the whole seconds matter to [formatHMS]. *)
Lemma formatHMS_floor (q q' : Q) :
  (0 <= q)%Q -> (0 <= q')%Q -> Qfloor q = Qfloor q' ->
  formatHMS (Fin q) = formatHMS (Fin q').
Proof.
  intros Hq Hq' E. unfold formatHMS. cbn [isFinite negb orb ltZero finitePart].
  rewrite (proj2 (Qltb_false_iff q 0) Hq), (proj2 (Qltb_false_iff q' 0) Hq'), E.
  reflexivity.
Qed.

(** X18.  A rendered duration can be read back: cutting the result of
    [formatHMS] at its colons and reading the three decimal numbers gives
    the whole seconds of the input, so two durations are rendered alike
    exactly when they have the same whole seconds. *)
Theorem duration_reads_back (q q' : Q) :
  (0 <= q)%Q -> (0 <= q')%Q ->
  readHMS (formatHMS (Fin q)) = Some (Qfloor q)
  /\ (formatHMS (Fin q) = formatHMS (Fin q') <-> Qfloor q = Qfloor q').
Proof.
  intros Hq Hq'. split; [apply readHMS_formatHMS, Hq|]. split.
  - intros E.
    pose proof (readHMS_formatHMS q Hq) as H1.
    pose proof (readHMS_formatHMS q' Hq') as H2.
    rewrite E, H2 in H1. now injection H1.
  - apply formatHMS_floor; assumption.
Qed.

Lemma duration_reads_back_witness :
  readHMS (formatHMS (Fin (7323 # 2))) = Some 3661.
Proof.
  apply (proj1 (duration_reads_back (7323 # 2) 0 ltac:(discriminate)
                  ltac:(discriminate))).
Defined.

Local Open Scope Q_scope.

Lemma Qfloor_zero_iff (q : Q) : 0 <= q -> (Qfloor q = 0%Z <-> q < 1).
Proof.
  intros Hq. split.
  - intros E. pose proof (Qlt_floor q) as H. rewrite E in H. exact H.
  - intros Hlt. pose proof (Qfloor_nonneg q Hq) as H0.
    pose proof (Qfloor_le q) as Hle.
    assert (H1 : inject_Z (Qfloor q) < inject_Z 1)
      by (change (inject_Z 1) with 1; lra).
    rewrite <- Zlt_Qlt in H1. lia.
Qed.

(** X19.  The completion time shown by a tick reads [00:00:00] exactly
    when the smoothed rate is at or below the floor of 1 byte per second,
    the unknown case, or less than one second of transfer remains at that
    rate, which includes a finished transfer. *)
Theorem shown_eta_is_zero (totalBytes uploaded : Z) (ema : Q) :
  formatHMS (etaSec totalBytes uploaded ema) = lit "00:00:00"
  <-> ema <= 1 \/ inject_Z (remainingBytes totalBytes uploaded) < ema.
Proof.
  unfold etaSec. set (r := remainingBytes totalBytes uploaded).
  assert (Hr : 0 <= inject_Z r).
  { change 0 with (inject_Z 0). rewrite <- Zle_Qle. unfold r, remainingBytes.
    lia. }
  destruct (Qltb 1 ema) eqn:E.
  - apply Qltb_true_iff in E.
    assert (Hpos : 0 < ema) by lra.
    assert (Hq : 0 <= inject_Z r / ema).
    { apply Qle_shift_div_l; [exact Hpos|]. now rewrite Qmult_0_l. }
    assert (Hlt : inject_Z r / ema < 1 <-> inject_Z r < ema).
    { split; intros H.
      - assert (Hm : inject_Z r == ema * (inject_Z r / ema)).
        { symmetry. apply Qmult_div_r. intros Z0. rewrite Z0 in Hpos.
          exact (Qlt_irrefl 0 Hpos). }
        rewrite Hm. set (t := inject_Z r / ema) in *. nra.
      - apply Qlt_shift_div_r; [exact Hpos|]. now rewrite Qmult_1_l. }
    rewrite <- Hlt, <- (Qfloor_zero_iff _ Hq). split.
    + intros H. pose proof (readHMS_formatHMS _ Hq) as Hread.
      rewrite H in Hread. right. now injection Hread.
    + intros [H|H]; [lra|].
      rewrite (formatHMS_floor (inject_Z r / ema) 0 Hq (Qle_refl 0) H).
      reflexivity.
  - apply Qltb_false_iff in E. split; [intros _; left; exact E|reflexivity].
Qed.

End DurationFacts.

(** ** The earlier client and the end of a session *)

Module SessionFacts.
Import Client Cli Session Notions MoreNotions NumFacts BarFacts DrawFacts.
Import LoopFacts TickFacts.

Local Open Scope Z_scope.

(** X20.  The earlier client and the present one sample alike and
    compose the same line: after a tick their counters and estimates
    agree; the earlier one erases the line, returns to column one and
    writes the 30-cell bar, a space and the suffix; the present one
    writes that very line, through [console.log] off a terminal, and in
    place on a terminal that is wider than the line or of unknown width,
    provided the previous render was not longer. *)
Theorem earlier_client_agrees
    (totalBytes now : Z) (t : Terminal) (st : State) :
  let sfx := suffixAt totalBytes now st in
  exists bar s1 s2,
    makeBar (progress01 totalBytes (uploadedBytes st)) BAR_WIDTH = Some bar
    /\ Legacy.tick totalBytes now st = Some s1
    /\ tick totalBytes now t st = Some s2
    /\ uploadedBytes s1 = uploadedBytes s2
    /\ lastBytes s1 = lastBytes s2
    /\ lastTime s1 = lastTime s2
    /\ emaBytesPerSec s1 = emaBytesPerSec s2
    /\ outputs s1
       = outputs st
         ++ [StdoutWrite Legacy.eraseLine; StdoutWrite Legacy.toColumnOne;
             StdoutWrite (bar ++ lit " " ++ sfx)]
    /\ (isTTY t = false ->
        outputs s2 = outputs st ++ [ConsoleLog (bar ++ lit " " ++ sfx)])
    /\ (isTTY t = true ->
        columnsOrZero t <= 0 \/ len sfx + 33 < columnsOrZero t ->
        lastRenderedLen st <= len sfx + 33 ->
        outputs s2
        = outputs st ++ [StdoutWrite (clearLine ++ (bar ++ lit " " ++ sfx))]).
Proof.
  intros sfx.
  destruct (sample_keeps now st) as (Hu & _ & Hl & Ho).
  destruct (makeBar_value (progress01 totalBytes (uploadedBytes st)) BAR_WIDTH)
    as [Hb Hbar]; [unfold BAR_WIDTH; lia|].
  set (bar := barOf (Math_round
                       (Qmax 0 (Qmin 1 (progress01 totalBytes (uploadedBytes st)))
                        * inject_Z BAR_WIDTH)%Q) BAR_WIDTH) in *.
  assert (Hlen : len (bar ++ lit " " ++ sfx) = len sfx + 33).
  { rewrite !len_app. unfold bar. rewrite len_barOf by exact Hb.
    change (len (lit " ")) with 1. unfold BAR_WIDTH. lia. }
  set (sm := sample now st) in *.
  pose proof (draw_spec totalBytes t sfx sm) as Hdraw. cbv zeta in Hdraw.
  assert (Hlegacy : Legacy.tick totalBytes now st
                    = Some (mkState (uploadedBytes sm) (forwarded sm)
                              (lastBytes sm) (lastTime sm) (emaBytesPerSec sm)
                              (lastRenderedLen sm)
                              (outputs sm ++
                               [StdoutWrite Legacy.eraseLine;
                                StdoutWrite Legacy.toColumnOne;
                                StdoutWrite (bar ++ lit " " ++ sfx)]))).
  { unfold Legacy.tick, Legacy.draw. fold sm.
    replace (makeBar (progress01 totalBytes (uploadedBytes sm)) BAR_WIDTH)
      with (Some bar) by (rewrite Hu; symmetry; exact Hbar).
    reflexivity. }
  assert (Htick : tick totalBytes now t st = draw totalBytes t sfx sm)
    by reflexivity.
  rewrite Hdraw in Htick. clearbody sfx.
  exists bar. eexists. eexists.
  split; [exact Hbar|]. split; [exact Hlegacy|]. split; [exact Htick|].
  cbn [uploadedBytes lastBytes lastTime emaBytesPerSec outputs]. rewrite Ho.
  split; [destruct (isTTY t); reflexivity|].
  split; [destruct (isTTY t); reflexivity|].
  split; [destruct (isTTY t); reflexivity|].
  split; [destruct (isTTY t); reflexivity|].
  split; [reflexivity|].
  assert (Hwidth : columnsOrZero t <= 0 \/ len sfx + 33 < columnsOrZero t
                   \/ isTTY t = false ->
                   statusLine totalBytes t sfx sm = bar ++ lit " " ++ sfx).
  { intros Hwide. unfold statusLine.
    assert (Hw : barWidth t (len sfx) = BAR_WIDTH).
    { unfold barWidth, BAR_WIDTH.
      destruct (isTTY t); [|reflexivity].
      destruct (Z.ltb_spec 0 (columnsOrZero t)); [|reflexivity].
      destruct Hwide as [Hx|[Hx|Hx]]; [lia|lia|discriminate Hx]. }
    rewrite Hw, Hu. reflexivity. }
  split.
  - intros Htty. rewrite Htty. cbn [outputs]. rewrite ?Ho, Hwidth by auto.
    reflexivity.
  - intros Htty Hwide Hlast. rewrite Htty. cbn [outputs].
    rewrite ?Ho, Hwidth by tauto.
    assert (Hout : truncated (columnsOrZero t) (bar ++ lit " " ++ sfx)
                   = bar ++ lit " " ++ sfx).
    { unfold truncated.
      destruct (Z.ltb_spec 0 (columnsOrZero t)) as [Hc|Hc]; [|reflexivity].
      destruct (Z.ltb_spec (columnsOrZero t - 1) (len (bar ++ lit " " ++ sfx)));
        [lia|reflexivity]. }
    rewrite Hout, Hl, Hlen.
    replace (Z.max 0 (lastRenderedLen st - (len sfx + 33))) with 0 by lia.
    change (blanks 0) with (@nil N). rewrite app_nil_r. reflexivity.
Qed.

Lemma earlier_client_agrees_witness :
  exists bar s1 s2,
    Legacy.tick 5 100 (init 0 pipeTerminal) = Some s1
    /\ tick 5 100 pipeTerminal (init 0 pipeTerminal) = Some s2
    /\ emaBytesPerSec s1 = emaBytesPerSec s2
    /\ outputs s2
       = [ConsoleLog (bar ++ lit " " ++ suffixAt 5 100 (init 0 pipeTerminal))].
Proof.
  destruct (earlier_client_agrees 5 100 pipeTerminal (init 0 pipeTerminal))
    as (bar & s1 & s2 & _ & H1 & H2 & _ & _ & _ & He & _ & Hpipe & _).
  exists bar, s1, s2. split; [exact H1|]. split; [exact H2|].
  split; [exact He|]. apply Hpipe. reflexivity.
Defined.




End SessionFacts.

(** * The client in binary64 *)

(** ** Rounding *)

Module RoundingFacts.
Import Client Binary64 NumFacts.

Local Open Scope Q_scope.

Lemma two_nonzero : ~ 2 == 0.
Proof. discriminate. Qed.

Lemma pow2_pos (k : Z) : 0 < 2 ^ k.
Proof. apply Qpower_0_lt. reflexivity. Qed.

(** A power of two with a natural exponent is an integer. *)
Lemma pow2_int (k : Z) : (0 <= k)%Z -> 2 ^ k == inject_Z (2 ^ k).
Proof. intros Hk. symmetry. apply (Zpower_Qpower 2 k Hk). Qed.

Lemma Qmake_as_div (n : Z) (d : positive) :
  n # d == inject_Z n / inject_Z (Zpos d).
Proof. apply Qmake_Qdiv. Qed.

Section Binade.

Variable x : Q.
Hypothesis Hx : 0 < x.

Let n := Qnum x.
Let d := Zpos (Qden x).
Let a := Z.log2 n.
Let b := Z.log2 d.

Lemma num_pos : (0 < n)%Z.
Proof. unfold n. destruct x as [xn xd]. unfold Qlt in Hx. simpl in *. lia. Qed.

Lemma binade_bounds_num :
  inject_Z (2 ^ a) <= inject_Z n /\ inject_Z n < inject_Z (2 ^ (a + 1)).
Proof.
  pose proof num_pos as Hn.
  destruct (Z.log2_spec n Hn) as [Hlo Hhi]. fold a in Hlo, Hhi.
  split; [rewrite <- Zle_Qle; exact Hlo|].
  rewrite <- Zlt_Qlt. replace (a + 1)%Z with (Z.succ a) by lia. exact Hhi.
Qed.

Lemma binade_bounds_den :
  inject_Z (2 ^ b) <= inject_Z d /\ inject_Z d < inject_Z (2 ^ (b + 1)).
Proof.
  assert (Hd : (0 < d)%Z) by (unfold d; lia).
  destruct (Z.log2_spec d Hd) as [Hlo Hhi]. fold b in Hlo, Hhi.
  split; [rewrite <- Zle_Qle; exact Hlo|].
  rewrite <- Zlt_Qlt. replace (b + 1)%Z with (Z.succ b) by lia. exact Hhi.
Qed.

Lemma x_as_div : x == inject_Z n / inject_Z d.
Proof. unfold n, d. destruct x as [xn xd]. apply Qmake_Qdiv. Qed.

Lemma log2_nonneg_a : (0 <= a)%Z.
Proof. apply Z.log2_nonneg. Qed.

Lemma log2_nonneg_b : (0 <= b)%Z.
Proof. apply Z.log2_nonneg. Qed.

(** [2^(a - b - 1) < x < 2^(a - b + 1)]. *)
Lemma first_estimate : 2 ^ (a - b - 1) <= x /\ x < 2 ^ (a - b + 1).
Proof.
  destruct binade_bounds_num as [Hn1 Hn2].
  destruct binade_bounds_den as [Hd1 Hd2].
  pose proof log2_nonneg_a as Ha. pose proof log2_nonneg_b as Hb.
  assert (HA : 0 < inject_Z (2 ^ a))
    by (rewrite <- pow2_int by lia; apply pow2_pos).
  assert (HB : 0 < inject_Z (2 ^ b))
    by (rewrite <- pow2_int by lia; apply pow2_pos).
  assert (HB1 : 0 < inject_Z (2 ^ (b + 1)))
    by (rewrite <- pow2_int by lia; apply pow2_pos).
  assert (HA1 : 0 < inject_Z (2 ^ (a + 1)))
    by (rewrite <- pow2_int by lia; apply pow2_pos).
  assert (HD : 0 < inject_Z d) by lra.
  rewrite x_as_div. split.
  - replace (a - b - 1)%Z with (a + - (b + 1))%Z by lia.
    rewrite Qpower_plus by apply two_nonzero.
    rewrite Qpower_opp, !pow2_int by lia.
    apply Qle_shift_div_l; [exact HD|].
    unfold Qdiv. rewrite <- Qmult_assoc, (Qmult_comm (/ _)).
    rewrite Qmult_assoc. apply Qle_shift_div_r; [exact HB1|].
    nra.
  - replace (a - b + 1)%Z with (a + 1 + - b)%Z by lia.
    rewrite Qpower_plus by apply two_nonzero.
    rewrite Qpower_opp, !pow2_int by lia.
    apply Qlt_shift_div_r; [exact HD|].
    unfold Qdiv. rewrite <- Qmult_assoc, (Qmult_comm (/ _)).
    rewrite Qmult_assoc. apply Qlt_shift_div_l; [exact HB|].
    nra.
Qed.

(** [binade] is the exponent of the binade of [x]. *)
Lemma binade_spec : 2 ^ binade x <= x /\ x < 2 ^ (binade x + 1).
Proof.
  destruct first_estimate as [Hlo Hhi].
  unfold binade. fold n d a b.
  destruct (Qle_bool (2 ^ (a - b)) x) eqn:E.
  - apply Qle_bool_iff in E. split; [exact E|exact Hhi].
  - split; [exact Hlo|].
    replace (a - b - 1 + 1)%Z with (a - b)%Z by lia.
    apply Qltb_true_iff. unfold Qltb. now rewrite E.
Qed.

End Binade.

(** The rounded integer is within one half of the argument. *)
Lemma nearestEven_near (y : Q) :
  y - (1 # 2) <= inject_Z (nearestEven y) <= y + (1 # 2).
Proof.
  pose proof (Qfloor_le y) as Hlo. pose proof (Qlt_floor y) as Hhi.
  rewrite inject_Z_plus in Hhi. change (inject_Z 1) with 1 in Hhi.
  unfold nearestEven.
  destruct (Qltb (y - inject_Z (Qfloor y)) (1 # 2)) eqn:E1.
  - apply Qltb_true_iff in E1. lra.
  - apply Qltb_false_iff in E1.
    destruct (Qltb (1 # 2) (y - inject_Z (Qfloor y))) eqn:E2.
    + rewrite inject_Z_plus. change (inject_Z 1) with 1. lra.
    + apply Qltb_false_iff in E2.
      destruct (Z.even (Qfloor y));
        rewrite ?inject_Z_plus; change (inject_Z 1) with 1; lra.
Qed.

(** Rounding does not cross an integer. *)
Lemma nearestEven_le_int (y : Q) (k : Z) :
  y <= inject_Z k -> (nearestEven y <= k)%Z.
Proof.
  intros H.
  assert (Hf : (Qfloor y <= k)%Z).
  { rewrite <- (Qfloor_Z k). apply Qfloor_resp_le, H. }
  pose proof (Qfloor_le y) as Hlo.
  unfold nearestEven.
  destruct (Qltb (y - inject_Z (Qfloor y)) (1 # 2)) eqn:E1; [exact Hf|].
  apply Qltb_false_iff in E1.
  assert (Hne : (Qfloor y < k)%Z).
  { rewrite Zlt_Qlt. lra. }
  destruct (Qltb (1 # 2) (y - inject_Z (Qfloor y))); [lia|].
  destruct (Z.even (Qfloor y)); lia.
Qed.

Lemma nearestEven_ge_int (y : Q) (k : Z) :
  inject_Z k <= y -> (k <= nearestEven y)%Z.
Proof.
  intros H.
  assert (Hf : (k <= Qfloor y)%Z).
  { rewrite <- (Qfloor_Z k). apply Qfloor_resp_le, H. }
  unfold nearestEven.
  destruct (Qltb (y - inject_Z (Qfloor y)) (1 # 2)); [exact Hf|].
  destruct (Qltb (1 # 2) (y - inject_Z (Qfloor y))); [lia|].
  destruct (Z.even (Qfloor y)); lia.
Qed.

Lemma ulp_pos (x : Q) : 0 < ulp x.
Proof. apply pow2_pos. Qed.

Lemma fl_pos_eq (x : Q) : 0 < x -> fl x = roundPos x.
Proof.
  intros Hx. unfold fl.
  destruct (Qeq_bool x 0) eqn:E.
  - apply Qeq_bool_eq in E. lra.
  - apply Qltb_true_iff in Hx. now rewrite Hx.
Qed.

Lemma fl_zero (x : Q) : x == 0 -> fl x = 0.
Proof.
  intros Hx. unfold fl. apply Qeq_eq_bool in Hx. now rewrite Hx.
Qed.

(** The spacing is [2^-1074] below the normal numbers and at most
    [2^-52] times the number among them. *)
Lemma ulp_cases (x : Q) :
  0 < x -> ulp x <= 2 ^ (-52) * x \/ ulp x = 2 ^ (-1074).
Proof.
  intros Hx. destruct (binade_spec x Hx) as [Hlo _]. unfold ulp, emin.
  destruct (Z.max_spec (binade x) (-1022)) as [[_ ->]|[_ ->]].
  - right. reflexivity.
  - left. replace (binade x - 52)%Z with (binade x + -52)%Z by lia.
    rewrite Qpower_plus by apply two_nonzero.
    pose proof (pow2_pos (-52)) as Hp.
    rewrite Qmult_comm. apply Qmult_le_l; assumption.
Qed.

Lemma ulp_normal (x : Q) : 2 ^ emin <= x -> ulp x <= 2 ^ (-52) * x.
Proof.
  intros Hn.
  assert (Hx : 0 < x)
    by (apply Qlt_le_trans with (2 ^ emin); [apply pow2_pos|exact Hn]).
  destruct (binade_spec x Hx) as [Hlo Hhi].
  assert (He : (emin < binade x + 1)%Z).
  { apply (Qpower_lt_compat_l_inv 2); [|reflexivity].
    apply Qle_lt_trans with x; assumption. }
  unfold ulp. rewrite Z.max_l by lia.
  replace (binade x - 52)%Z with (binade x + -52)%Z by lia.
  rewrite Qpower_plus by apply two_nonzero.
  pose proof (pow2_pos (-52)) as Hp.
  rewrite Qmult_comm. apply Qmult_le_l; assumption.
Qed.

(** Rounding a positive number moves it by at most half the spacing,
    hence by a relative error of at most [2^-53]. *)
Lemma fl_near (x : Q) :
  0 < x -> x - (1 # 2) * ulp x <= fl x <= x + (1 # 2) * ulp x.
Proof.
  intros Hx. rewrite (fl_pos_eq x Hx). unfold roundPos.
  pose proof (ulp_pos x) as Hu.
  pose proof (nearestEven_near (x / ulp x)) as [Hlo Hhi].
  set (r := inject_Z (nearestEven (x / ulp x))) in *.
  assert (Hx' : x / ulp x * ulp x == x).
  { field. intros E. rewrite E in Hu. exact (Qlt_irrefl 0 Hu). }
  set (y := x / ulp x) in *. set (u := ulp x) in *.
  assert (H1 : (y - (1 # 2)) * u <= r * u)
    by (apply Qmult_le_compat_r; lra).
  assert (H2 : r * u <= (y + (1 # 2)) * u)
    by (apply Qmult_le_compat_r; lra).
  split; lra.
Qed.

Lemma unitRoundoff_value : unitRoundoff == 1 # 9007199254740992.
Proof. reflexivity. Qed.

Lemma tiny_value : tiny * 2 == 2 ^ (-1074).
Proof. reflexivity. Qed.

Lemma tiny_pos : 0 < tiny.
Proof. apply pow2_pos. Qed.

(** The error of one rounding: relative, or absolute below the normal
    numbers. *)
Lemma fl_error (x : Q) :
  0 < x ->
  (1 - unitRoundoff) * x - tiny <= fl x <= (1 + unitRoundoff) * x + tiny.
Proof.
  intros Hx. pose proof (fl_near x Hx) as [Hlo Hhi].
  pose proof tiny_pos as Ht. pose proof tiny_value as Hv.
  assert (H52 : 2 ^ (-52) == 1 # 4503599627370496) by reflexivity.
  rewrite unitRoundoff_value.
  destruct (ulp_cases x Hx) as [Hu|Hu].
  - rewrite H52 in Hu.
    set (u := ulp x) in *. set (f := fl x) in *. set (t := tiny) in *.
    split; lra.
  - rewrite Hu, <- Hv in Hlo, Hhi.
    set (f := fl x) in *. set (t := tiny) in *.
    split; lra.
Qed.

(** Among the normal numbers the error is relative. *)
Lemma fl_error_normal (x : Q) :
  2 ^ emin <= x ->
  (1 - unitRoundoff) * x <= fl x <= (1 + unitRoundoff) * x.
Proof.
  intros Hn.
  assert (Hx : 0 < x)
    by (apply Qlt_le_trans with (2 ^ emin); [apply pow2_pos|exact Hn]).
  pose proof (fl_near x Hx) as [Hlo Hhi].
  pose proof (ulp_normal x Hn) as Hu.
  assert (H52 : 2 ^ (-52) == 1 # 4503599627370496) by reflexivity.
  rewrite H52 in Hu. rewrite unitRoundoff_value.
  set (u := ulp x) in *. set (f := fl x) in *.
  split; lra.
Qed.

Lemma fl_pos (x : Q) : 2 ^ emin <= x -> 0 < fl x.
Proof.
  intros Hn.
  assert (Hx : 0 < x)
    by (apply Qlt_le_trans with (2 ^ emin); [apply pow2_pos|exact Hn]).
  pose proof (fl_error_normal x Hn) as [Hlo _].
  rewrite unitRoundoff_value in Hlo. set (f := fl x) in *. lra.
Qed.

Lemma fl_nonneg (x : Q) : 0 <= x -> 0 <= fl x.
Proof.
  intros Hx. destruct (Qlt_le_dec 0 x) as [H|H].
  - rewrite (fl_pos_eq x H). unfold roundPos.
    apply Qmult_le_0_compat; [|apply Qlt_le_weak, ulp_pos].
    change 0 with (inject_Z 0). rewrite <- Zle_Qle.
    apply nearestEven_ge_int. change (inject_Z 0) with 0.
    apply Qle_shift_div_l; [apply ulp_pos|]. lra.
  - rewrite fl_zero by lra. lra.
Qed.

(** Below 2^53 rounding does not cross an integer: a number at most [k]
    rounds to a number at most [k]. *)
Lemma fl_le_int (x : Q) (k : Z) :
  0 < x -> x <= inject_Z k -> (k < 2 ^ 53)%Z -> fl x <= inject_Z k.
Proof.
  intros Hx Hk H53. destruct (binade_spec x Hx) as [Hlo _].
  assert (He : (binade x < 53)%Z).
  { apply (Qpower_lt_compat_l_inv 2); [|reflexivity].
    rewrite (pow2_int 53) by lia.
    apply Qle_lt_trans with x; [exact Hlo|].
    apply Qle_lt_trans with (inject_Z k); [exact Hk|].
    rewrite <- Zlt_Qlt. exact H53. }
  rewrite (fl_pos_eq x Hx). unfold roundPos.
  pose proof (ulp_pos x) as Hu.
  set (m := (52 - Z.max (binade x) emin)%Z).
  assert (Hm : (0 <= m)%Z) by (unfold m, emin; lia).
  assert (Hinv : ulp x * inject_Z (2 ^ m) == 1).
  { unfold ulp. rewrite <- pow2_int by exact Hm.
    rewrite <- Qpower_plus by apply two_nonzero.
    replace (Z.max (binade x) emin - 52 + m)%Z with 0%Z by (unfold m; lia).
    reflexivity. }
  assert (HM : 0 < inject_Z (2 ^ m)).
  { rewrite <- pow2_int by exact Hm. apply pow2_pos. }
  assert (Hy : x / ulp x <= inject_Z (k * 2 ^ m)).
  { rewrite inject_Z_mult. apply Qle_shift_div_r; [exact Hu|].
    set (M := inject_Z (2 ^ m)) in *. set (u := ulp x) in *.
    assert (E : inject_Z k * M * u == inject_Z k) by (rewrite <- Qmult_assoc, (Qmult_comm M), Hinv; ring).
    rewrite E. exact Hk. }
  apply nearestEven_le_int in Hy. rewrite Zle_Qle, inject_Z_mult in Hy.
  set (r := inject_Z (nearestEven (x / ulp x))) in *.
  set (M := inject_Z (2 ^ m)) in *. set (u := ulp x) in *.
  assert (H : r * u <= inject_Z k * M * u)
    by (apply Qmult_le_compat_r; lra).
  assert (E : inject_Z k * M * u == inject_Z k)
    by (rewrite <- Qmult_assoc, (Qmult_comm M), Hinv; ring).
  rewrite E in H. exact H.
Qed.

End RoundingFacts.

(** ** The bar *)

Module BarRoundingFacts.
Import Client Notions Binary64 NumFacts BarFacts RoundingFacts.

Local Open Scope Q_scope.

(** [Math.round] is the one integer within a half below and at most a half
    above. *)
Lemma Math_round_unique (y : Q) (k : Z) :
  inject_Z k - (1 # 2) <= y -> y < inject_Z k + (1 # 2) -> Math_round y = k.
Proof.
  intros Hlo Hhi. destruct (Math_round_nearest y) as [Rlo Rhi].
  assert (H1 : inject_Z (Math_round y) < inject_Z (k + 1)).
  { rewrite inject_Z_plus. change (inject_Z 1) with 1. lra. }
  assert (H2 : inject_Z k < inject_Z (Math_round y + 1)).
  { rewrite inject_Z_plus. change (inject_Z 1) with 1. lra. }
  rewrite <- Zlt_Qlt in H1, H2. lia.
Qed.

(** The rounded product of a number of the unit interval and a width
    below 2^53 stays between 0 and the width. *)
Lemma fmul_unit_width (c : Q) (w : Z) :
  0 <= c <= 1 -> (0 <= w < 2 ^ 53)%Z ->
  0 <= fmul c (inject_Z w) <= inject_Z w.
Proof.
  intros [Hc0 Hc1] [Hw0 Hw1]. unfold fmul.
  assert (HW : 0 <= inject_Z w) by (rewrite Zle_Qle in Hw0; exact Hw0).
  assert (Hx0 : 0 <= c * inject_Z w) by (apply Qmult_le_0_compat; assumption).
  assert (Hx1 : c * inject_Z w <= inject_Z w).
  { rewrite <- (Qmult_1_l (inject_Z w)) at 2.
    apply Qmult_le_compat_r; assumption. }
  split; [apply fl_nonneg, Hx0|].
  destruct (Qlt_le_dec 0 (c * inject_Z w)) as [H|H].
  - apply fl_le_int; assumption.
  - rewrite fl_zero by lra. exact HW.
Qed.

(** The distance of a rounded nonnegative number from the number. *)
Lemma fl_distance (x : Q) :
  0 <= x -> Qabs (fl x - x) <= unitRoundoff * x + tiny.
Proof.
  intros Hx. pose proof tiny_pos as Ht. apply Qabs_Qle_condition.
  destruct (Qlt_le_dec 0 x) as [H|H].
  - pose proof (fl_error x H) as [Hlo Hhi].
    set (f := fl x) in *. set (u := unitRoundoff) in *. set (t := tiny) in *.
    split; lra.
  - assert (E : x == 0) by lra. rewrite (fl_zero x E).
    assert (Hu : 0 < unitRoundoff) by apply pow2_pos.
    set (u := unitRoundoff) in *. set (t := tiny) in *.
    split; nra.
Qed.

Lemma makeBar_rounded (f : Q) (w : Z) :
  (0 <= w < 2 ^ 53)%Z ->
  let filled := Math_round (fmul (Qmax 0 (Qmin 1 f)) (inject_Z w)) in
  (0 <= filled <= w)%Z /\ Binary64.makeBar f w = Some (barOf filled w).
Proof.
  intros Hw filled.
  assert (Hb : (0 <= filled <= w)%Z).
  { apply Math_round_bounds, fmul_unit_width; [apply clamp_unit|exact Hw]. }
  split; [exact Hb|].
  unfold Binary64.makeBar. fold filled. unfold filledChar, emptyChar.
  rewrite !repeat_unit by lia. reflexivity.
Qed.

(** C8.  For a width [0 <= w < 2^53] and any fraction [f], [makeBar]
    draws [filled] full cells and [w - filled] empty ones, where [filled]
    is [Math.round] (nearest integer, a tie going up) of the binary64
    product [p] of [clamp(f,0,1)] and [w].  That product is within
    [2^-53 * x + 2^-1075] of the exact product [x], so [filled] is
    [round(x)] whenever [x] is at least that far from the two ties around
    [round(x)].  The fraction drawn by the ticker is the binary64 quotient
    of [uploadedBytes] by [totalBytes], within [2^-53 * q + 2^-1075] of
    the exact quotient [q], when [totalBytes > 0], and 1 when
    [totalBytes = 0]. *)
Theorem bar_cells_and_fraction (f : Q) (w : Z) :
  (0 <= w < 2 ^ 53)%Z ->
  let c := Qmax 0 (Qmin 1 f) in
  let x := c * inject_Z w in
  let p := fmul c (inject_Z w) in
  let filled := Math_round p in
  let slack := unitRoundoff * x + tiny in
  (exists bar,
      Binary64.makeBar f w = Some bar
      /\ bar = barOf filled w
      /\ count_occ N.eq_dec bar filledUnit = Z.to_nat filled
      /\ count_occ N.eq_dec bar emptyUnit = Z.to_nat (w - filled))
  /\ (0 <= filled <= w)%Z
  /\ c == clamp01 f
  /\ (inject_Z filled - (1 # 2) <= p /\ p < inject_Z filled + (1 # 2))
  /\ Qabs (p - x) <= slack
  /\ (inject_Z (Math_round x) - (1 # 2) + slack <= x ->
      x < inject_Z (Math_round x) + (1 # 2) - slack ->
      filled = Math_round x)
  /\ (forall totalBytes uploaded : Z,
        (0 < totalBytes)%Z ->
        Binary64.progress01 totalBytes uploaded
        = fdiv (inject_Z uploaded) (inject_Z totalBytes))
  /\ (forall totalBytes uploaded : Z,
        (0 < totalBytes)%Z -> (0 <= uploaded)%Z ->
        let q := inject_Z uploaded / inject_Z totalBytes in
        Qabs (Binary64.progress01 totalBytes uploaded - q)
        <= unitRoundoff * q + tiny)
  /\ (forall uploaded : Z, Binary64.progress01 0 uploaded = 1).
Proof.
  intros Hw c x p filled slack.
  destruct (makeBar_rounded f w Hw) as [Hb Hbar].
  fold c p filled in Hb, Hbar.
  assert (Hx : 0 <= x).
  { unfold x. destruct (clamp_unit f) as [Hc0 _]. fold c in Hc0.
    apply Qmult_le_0_compat; [exact Hc0|].
    change 0 with (inject_Z 0). rewrite <- Zle_Qle. lia. }
  assert (Hd : Qabs (p - x) <= slack) by (apply fl_distance, Hx).
  assert (Hprog : forall totalBytes uploaded : Z,
             (0 < totalBytes)%Z ->
             Binary64.progress01 totalBytes uploaded
             = fdiv (inject_Z uploaded) (inject_Z totalBytes)).
  { intros totalBytes uploaded Ht. unfold Binary64.progress01.
    destruct (Z.ltb_spec 0 totalBytes) as [_|H]; [reflexivity|lia]. }
  split; [|split; [exact Hb|split; [apply clamp_is_clamp01|split; [|split;
    [exact Hd|split; [|split; [exact Hprog|split]]]]]]].
  - exists (barOf filled w). destruct (count_barOf filled w) as [Hc1 Hc2].
    split; [exact Hbar|]. split; [reflexivity|]. split; assumption.
  - destruct (Math_round_nearest p) as [Hlo Hhi]. fold filled in Hlo, Hhi.
    split; lra.
  - intros Hlo Hhi. apply Math_round_unique.
    + apply Qabs_Qle_condition in Hd. destruct Hd as [Hd1 Hd2]. lra.
    + apply Qabs_Qle_condition in Hd. destruct Hd as [Hd1 Hd2]. lra.
  - intros totalBytes uploaded Ht Hu q. rewrite (Hprog _ _ Ht).
    apply fl_distance. unfold q. apply Qle_shift_div_l.
    + change 0 with (inject_Z 0). rewrite <- Zlt_Qlt. exact Ht.
    + rewrite Qmult_0_l. change 0 with (inject_Z 0). rewrite <- Zle_Qle.
      exact Hu.
  - intros uploaded. reflexivity.
Qed.

(** Half of a nine-cell bar: the product is 4.5 exactly and five cells
    are full; 50 bytes of 200 are the fraction 0.25. *)
Lemma bar_cells_and_fraction_witness :
  Binary64.makeBar (1 # 2) 9
  = Some (lit "[" ++ List.repeat filledUnit 5 ++ List.repeat emptyUnit 4 ++ lit "]")
  /\ Binary64.progress01 200 50 == 1 # 4.
Proof.
  assert (Hw : (0 <= 9 < 2 ^ 53)%Z) by (split; [lia|reflexivity]).
  destruct (bar_cells_and_fraction (1 # 2) 9 Hw)
    as ((bar & Hbar & Hval & _) & _ & _ & _ & _ & _ & Hfrac & _).
  split.
  - rewrite Hbar, Hval. vm_compute. reflexivity.
  - rewrite Hfrac by lia. vm_compute. reflexivity.
Defined.

(** C8 as stated fails.  With 15 bytes of 52 sent and a bar 26 cells
    wide, the fraction times the width is 7.5 and rounds to 8, but the
    quotient rounds to a binary64 number just below 15/52, the product to
    7.499999999999999, and the bar has 7 full cells.  And for the binary64
    number nearest 0.3 and a width of 5 the product rounds up to 1.5: the
    bar has 2 full cells where that number times 5, just below 1.5, rounds
    to 1. *)
Lemma bar_cells_counterexample :
  (Binary64.makeBar (Binary64.progress01 52 15) 26 = Some (barOf 7 26)
   /\ count_occ N.eq_dec (barOf 7 26) filledUnit = 7%nat
   /\ Math_round (clamp01 (inject_Z 15 / inject_Z 52) * inject_Z 26) = 8%Z
   /\ count_occ N.eq_dec (barOf 7 26) filledUnit
      <> Z.to_nat
           (Math_round (clamp01 (inject_Z 15 / inject_Z 52) * inject_Z 26))
   /\ fmul (Binary64.progress01 52 15) (inject_Z 26)
      == 8444249301319679 # 1125899906842624)
  /\ (Binary64.makeBar (fl (3 # 10)) 5 = Some (barOf 2 5)
      /\ count_occ N.eq_dec (barOf 2 5) filledUnit = 2%nat
      /\ Math_round (clamp01 (fl (3 # 10)) * inject_Z 5) = 1%Z
      /\ count_occ N.eq_dec (barOf 2 5) filledUnit
         <> Z.to_nat (Math_round (clamp01 (fl (3 # 10)) * inject_Z 5))).
Proof.
  split.
  - split; [vm_compute; reflexivity|].
    split; [vm_compute; reflexivity|].
    split; [vm_compute; reflexivity|].
    split; [vm_compute; discriminate|].
    vm_compute. reflexivity.
  - split; [vm_compute; reflexivity|].
    split; [vm_compute; reflexivity|].
    split; [vm_compute; reflexivity|].
    vm_compute. discriminate.
Qed.

End BarRoundingFacts.

(** ** The smoothed rate *)

Module RateRoundingFacts.
Import Client Notions MoreNotions Binary64 NumFacts RoundingFacts.

Local Open Scope Q_scope.












End RateRoundingFacts.
